(** * IP-UCD industry-pack driver (ip-ucd.h): embedding and properties

    The driver of [src/ip-ucd.h] is embedded as a small state-and-exception
    monad over a "world": the module as seen through the two memory windows
    of the instance, plus the chronological trace of the register accesses
    the driver has issued. *)

From Stdlib Require Import ZArith List Lia Bool String.
Import ListNotations.
Open Scope Z_scope.

(** ** Fixed-width unsigned integers *)

Definition wrap (bits x : Z) : Z := x mod 2 ^ bits.
Definition u8 (x : Z) : Z := wrap 8 x.
Definition u16 (x : Z) : Z := wrap 16 x.
Definition u32 (x : Z) : Z := wrap 32 x.

Module IPUCD.

(** ** class FifoEntry *)

Definition NO_VALUE : Z := 0xffffffff.

Record FifoEntry : Type := mkFifoEntry { value : Z }.

(** [explicit FifoEntry(uint32_t v = NO_VALUE)] *)
Definition FifoEntry_of (v : Z) : FifoEntry := mkFifoEntry v.
Definition FifoEntry_default : FifoEntry := FifoEntry_of NO_VALUE.

(** [uint8_t event() const { return uint8_t(value); }] *)
Definition event (e : FifoEntry) : Z := u8 (value e).
(** [uint32_t stamp() const { return value >> 8; }] *)
Definition stamp (e : FifoEntry) : Z := Z.shiftr (value e) 8.
(** [bool isValid() const { return value != NO_VALUE; }] *)
Definition isValid (e : FifoEntry) : bool := negb (value e =? NO_VALUE).

(** ** Register layout *)

Inductive AddressSpace := A16 | A32.
Inductive ReadAccess := NoRead | Read | DestructiveRead.
Inductive WriteAccess := NoWrite | Write | ConfirmWrite.

(** The template arguments of one [VME::Register<...>] typedef: address
    space, width in bits of the atomic access, number of entries, byte
    offset, read and write capability. *)
Record RegisterDesc := {
  space : AddressSpace;
  bits : Z;
  RegEntries : Z;
  RegOffset : Z;
  racc : ReadAccess;
  wacc : WriteAccess
}.

Inductive Reg :=
| regControl | regStatus | regMdatIntType | regMdatBufSwitch
| regFtpTSLow | regFtpTSHigh | regFifoWrite | regFifoClear
| regFifoThreshold
| regTrigger | regFifo
| regIdHigh | regIdLow.

Definition desc (r : Reg) : RegisterDesc :=
  match r with
  | regControl       => Build_RegisterDesc A16 16 1 0x40 Read ConfirmWrite
  | regStatus        => Build_RegisterDesc A16 16 1 0x42 Read ConfirmWrite
  | regMdatIntType   => Build_RegisterDesc A16 8 1 0x44 Read ConfirmWrite
  | regMdatBufSwitch => Build_RegisterDesc A16 8 1 0x45 Read ConfirmWrite
  | regFtpTSLow      => Build_RegisterDesc A16 16 1 0x46 Read ConfirmWrite
  | regFtpTSHigh     => Build_RegisterDesc A16 16 1 0x48 Read ConfirmWrite
  | regFifoWrite     => Build_RegisterDesc A16 8 1 0x4a Read ConfirmWrite
  | regFifoClear     => Build_RegisterDesc A16 8 1 0x4b Read ConfirmWrite
  | regFifoThreshold => Build_RegisterDesc A16 16 1 0x4c Read ConfirmWrite
  | regTrigger       => Build_RegisterDesc A32 16 256 0x0 Read ConfirmWrite
  (* the FifoEntry specialisation: AtomicType is uint16_t, two words *)
  | regFifo          => Build_RegisterDesc A32 16 1 0x1200 DestructiveRead NoWrite
  (* PROM<0x89>, PROM<0x8b> *)
  | regIdHigh        => Build_RegisterDesc A16 8 1 0x89 Read NoWrite
  | regIdLow         => Build_RegisterDesc A16 8 1 0x8b Read NoWrite
  end.

Definition Reg_eqb (a b : Reg) : bool :=
  match a, b with
  | regControl, regControl | regStatus, regStatus
  | regMdatIntType, regMdatIntType | regMdatBufSwitch, regMdatBufSwitch
  | regFtpTSLow, regFtpTSLow | regFtpTSHigh, regFtpTSHigh
  | regFifoWrite, regFifoWrite | regFifoClear, regFifoClear
  | regFifoThreshold, regFifoThreshold
  | regTrigger, regTrigger | regFifo, regFifo
  | regIdHigh, regIdHigh | regIdLow, regIdLow => true
  | _, _ => false
  end.

(** [enum ControlCommand] *)
Inductive ControlCommand :=
| NoOp | EnableTCLK | DisableTCLK | EnableMDAT | DisableMDAT
| MDAT_Buf0 | MDAT_Buf1 | EnableMDAT_BufAuto | DisableMDAT_BufAuto
| SW_Interrupt | SW_Reset.

Definition command_code (c : ControlCommand) : Z :=
  match c with
  | NoOp => 0x0 | EnableTCLK => 0x1 | DisableTCLK => 0x2
  | EnableMDAT => 0x3 | DisableMDAT => 0x4
  | MDAT_Buf0 => 0x5 | MDAT_Buf1 => 0x6
  | EnableMDAT_BufAuto => 0x7 | DisableMDAT_BufAuto => 0x8
  | SW_Interrupt => 0x9 | SW_Reset => 0xff
  end.

(** [enum Status] (bit masks of the status register) *)
Definition MDatParityError : Z := 0x4000.
Definition MDatBuffer0_1 : Z := 0x2000.
Definition FIFOUnderflow : Z := 0x1000.
Definition FIFOOverflow : Z := 0x0800.
Definition FIFOFull : Z := 0x0400.
Definition FIFOThreshold : Z := 0x0200.
Definition FIFOEmpty : Z := 0x0100.
Definition TclkParityError : Z := 0x0080.
Definition MdatBuffer1Enabled : Z := 0x0040.
Definition MdatBuffer0Enabled : Z := 0x0020.
Definition MdatAutoBufferEnabled : Z := 0x0010.
Definition MDatEnabled : Z := 0x0008.
Definition TclkEnabled : Z := 0x0004.
Definition MDatPresent : Z := 0x0002.
Definition TclkPresent : Z := 0x0001.

(** ** The address-space capability *)

(** Modelled from the spec: the address-space framework ([vwpp-3.0.h]:
    [VME::Memory], [ReadAPI], [WriteAPI]) is an external collaborator and
    its code is not part of this repository.  It is taken as a parameter:
    a module is any type [Dev] of hardware states with an atomic read and an
    atomic write of entry [idx] of a register.  A read returns the word on
    the bus and the next hardware state (a destructive read changes it);
    a write, together with its confirmation when the register is
    [ConfirmWrite], is one step of the hardware. *)
Class Hardware (Dev : Type) := {
  readMem : Reg -> Z -> Dev -> Z * Dev;
  writeMem : Reg -> Z -> Z -> Dev -> Dev
}.

(** One access issued by the driver, with the value carried. *)
Inductive BusOp :=
| OpRead (r : Reg) (idx : Z) (v : Z)
| OpWrite (r : Reg) (idx : Z) (v : Z).

Definition is_write (op : BusOp) : bool :=
  match op with OpWrite _ _ _ => true | OpRead _ _ _ => false end.

Definition is_write_to (r : Reg) (op : BusOp) : bool :=
  match op with OpWrite r' _ _ => Reg_eqb r r' | OpRead _ _ _ => false end.

Definition is_read_of (r : Reg) (op : BusOp) : bool :=
  match op with OpRead r' _ _ => Reg_eqb r r' | OpWrite _ _ _ => false end.

(** ** Exceptions and the driver monad *)

Inductive exn :=
| logic_error (what : string)
| runtime_error (what : string).

Inductive Result (A : Type) :=
| Ok (a : A)
| Throw (e : exn).
Arguments Ok {A} a.
Arguments Throw {A} e.

Record World (Dev : Type) := mkWorld { hw : Dev; log : list BusOp }.
Arguments mkWorld {Dev} hw log.
Arguments hw {Dev} w.
Arguments log {Dev} w.

Definition M (Dev A : Type) : Type := World Dev -> Result A * World Dev.

Definition ret {Dev A} (a : A) : M Dev A := fun w => (Ok a, w).

Definition throw {Dev A} (e : exn) : M Dev A := fun w => (Throw e, w).

Definition bind {Dev A B} (m : M Dev A) (k : A -> M Dev B) : M Dev B :=
  fun w =>
    match m w with
    | (Ok a, w') => k a w'
    | (Throw e, w') => (Throw e, w')
    end.

Notation "x <- m ;; k" := (bind m (fun x => k))
  (at level 61, m at next level, right associativity).
Notation "m ;;; k" := (bind m (fun _ => k))
  (at level 61, right associativity).

(** [for (size_t ii = lo; ii < lo + n; ++ii) body(ii);] *)
Fixpoint for_range {Dev} (lo : Z) (n : nat) (body : Z -> M Dev unit)
  : M Dev unit :=
  match n with
  | O => ret tt
  | S n' => body lo ;;; for_range (lo + 1) n' body
  end.

(** ** The driver, over any module *)

(** [Mutex::PMLockWithInt<HW, &HW::mutex>]: the token a caller holds while
    the device mutex is taken.  Every operation asks for it. *)
Inductive LockType : Set := PMLockWithInt.

(** The two operands of the sum in [getModuleId] are unsequenced; the
    compiler picks which PROM byte is read first. *)
Inductive EvalOrder := HighFirst | LowFirst.

Section Driver.

Context {Dev : Type} `{Hardware Dev}.

(** Modelled from the spec: the framework's
    [ReadAPI<T, Offset, R>::readMem(base, idx)] ("read(width, offset) ->
    value"), whose code is not in this repository: one read on the bus, the
    word converted to the register's atomic type. *)
Definition API_readMem (r : Reg) (idx : Z) : M Dev Z :=
  fun w =>
    let (raw, d) := readMem r idx (hw w) in
    let v := wrap (bits (desc r)) raw in
    (Ok v, mkWorld d (log w ++ [OpRead r idx v])).

(** Modelled from the spec: the framework's
    [WriteAPI<T, Offset, W>::writeMem(base, idx, v)] ("write(width, offset,
    value)"), whose code is not in this repository: [v] is converted to the
    register's atomic type on the way in, and written once. *)
Definition API_writeMem (r : Reg) (idx v : Z) : M Dev unit :=
  fun w =>
    let v' := wrap (bits (desc r)) v in
    (Ok tt, mkWorld (writeMem r idx v' (hw w)) (log w ++ [OpWrite r idx v'])).

(** [a16.get<R>(lock)], [a16.set<R>(lock, v)]: the framework's accessors
    of a one-entry register, entry 0. *)
Definition a16_get (lock : LockType) (r : Reg) : M Dev Z := API_readMem r 0.
Definition a16_set (lock : LockType) (r : Reg) (v : Z) : M Dev unit :=
  API_writeMem r 0 v.

(** [a32.get_element<R>(lock, idx)], [a32.set_element<R>(lock, idx, v)] *)
Definition a32_get_element (lock : LockType) (r : Reg) (idx : Z) : M Dev Z :=
  API_readMem r idx.
Definition a32_set_element (lock : LockType) (r : Reg) (idx v : Z)
  : M Dev unit :=
  API_writeMem r idx v.

(** [Register<A32, FifoEntry, Offset, R, NoWrite>::read]:
    [uint32_t tmp = API::readMem(base, 0);
     return FifoEntry((tmp << 16) | API::readMem(base, 1));] *)
Definition Register_FifoEntry_read : M Dev FifoEntry :=
  tmp <- API_readMem regFifo 0 ;;
  lo <- API_readMem regFifo 1 ;;
  ret (FifoEntry_of (u32 (Z.lor (u32 (Z.shiftl tmp 16)) lo))).

(** [a32.get<regFifo>(lock)] *)
Definition a32_get_regFifo (lock : LockType) : M Dev FifoEntry :=
  Register_FifoEntry_read.

Definition module_id_of (high low : Z) : Z :=
  u16 (Z.shiftl (u16 high) 8 + u16 low).

Definition getModuleId (ord : EvalOrder) (lock : LockType) : M Dev Z :=
  match ord with
  | HighFirst =>
      high <- a16_get lock regIdHigh ;;
      low <- a16_get lock regIdLow ;;
      ret (module_id_of high low)
  | LowFirst =>
      low <- a16_get lock regIdLow ;;
      high <- a16_get lock regIdHigh ;;
      ret (module_id_of high low)
  end.

Definition setFifoThreshold (lock : LockType) (level : Z) : M Dev unit :=
  if level >? 0 then a16_set lock regFifoThreshold level
  else throw (logic_error "illegal FIFO threshold value").

(** [void setupInterrupt(IntLock const&) {}] *)
Definition setupInterrupt (lock : LockType) : M Dev unit := ret tt.

Definition adjustTclkReception (lock : LockType) (enable : bool)
    (event trigBit : Z) : M Dev unit :=
  if trigBit >? 7 then throw (logic_error "illegal trigger bit value")
  else
    setupInterrupt lock ;;;
    let mask := u8 (Z.shiftl 1 trigBit) in
    prev <- a32_get_element lock regTrigger event ;;
    let value :=
      u16 (if enable then Z.lor prev mask else Z.land prev (Z.lnot mask)) in
    a32_set_element lock regTrigger event value.

Definition getTclkReception (lock : LockType) (event trigBit : Z)
  : M Dev bool :=
  if trigBit >? 7 then throw (logic_error "illegal trigger bit value")
  else
    let mask := u8 (Z.shiftl 1 trigBit) in
    cur <- a32_get_element lock regTrigger event ;;
    ret (negb (Z.land cur mask =? 0)).

Definition setResetFifoTimestampTrigger (lock : LockType) (trigBit : Z)
  : M Dev unit :=
  if (trigBit <? 1) || (trigBit >? 7)
  then throw (logic_error "illegal trigger bit value")
  else a16_set lock regFifoClear (trigBit + 1).

Definition setWriteFifoTrigger (lock : LockType) (trigBit : Z)
  : M Dev unit :=
  if (trigBit <? 1) || (trigBit >? 7)
  then throw (logic_error "illegal trigger bit value")
  else a16_set lock regFifoWrite (trigBit + 1).

(** [return Status(temp)]: the enumeration value is the integer read. *)
Definition getStatus (lock : LockType) : M Dev Z :=
  temp <- a16_get lock regStatus ;;
  a16_set lock regStatus temp ;;;
  ret temp.

(** [UNLIKELY(c)] is a branch-prediction hint around the condition [c]. *)
Definition readFifo (lock : LockType) : M Dev FifoEntry :=
  st <- a16_get lock regStatus ;;
  if Z.land st FIFOEmpty =? 0 then a32_get_regFifo lock
  else ret FifoEntry_default.

(** The constructor [HW::HW(a16_offset, a32_offset)].  The two offsets
    select the memory windows; [Dev] is the module found there. *)
Definition HW (ord : EvalOrder) (a16_offset a32_offset : Z) : M Dev unit :=
  let lock := PMLockWithInt in
  modid <- getModuleId ord lock ;;
  if negb (modid =? 0xbb15)
  then throw (runtime_error "IP-UCD not found at A16 offset")
  else
    a16_set lock regControl (command_code SW_Reset) ;;;
    a16_set lock regFifoWrite 0x00 ;;;
    a16_set lock regFifoClear 0x00 ;;;
    for_range 0 256 (fun ii => a32_set_element lock regTrigger ii 0x00) ;;;
    a16_set lock regControl (command_code EnableTCLK).

End Driver.

(** ** What the driver observes of a module *)

Section Observations.

Context {Dev : Type} `{Hardware Dev}.

(** The word a read of entry [idx] of [r] delivers in hardware state [d],
    and the hardware state the read leaves. *)
Definition bus_word (r : Reg) (idx : Z) (d : Dev) : Z :=
  wrap (bits (desc r)) (fst (readMem r idx d)).
Definition after_read (r : Reg) (idx : Z) (d : Dev) : Dev :=
  snd (readMem r idx d).

(** The two PROM reads of [getModuleId], in the order the compiler chose. *)
Definition id_reads (ord : EvalOrder) (high low : Z) : list BusOp :=
  match ord with
  | HighFirst => [OpRead regIdHigh 0 high; OpRead regIdLow 0 low]
  | LowFirst => [OpRead regIdLow 0 low; OpRead regIdHigh 0 high]
  end.

(** Modelled from the spec: the trigger map ("256 entries (one per possible
    event code), each a 16-bit mask") is read-write memory of the module,
    whose cells are not in this repository.  [trig d e] is the content of
    entry [e] in hardware state [d]: a read delivers it and leaves the map
    as it is, a write replaces that one entry. *)
Definition trigger_is_ram (trig : Dev -> Z -> Z) : Prop :=
  (forall d e, fst (readMem regTrigger e d) = trig d e) /\
  (forall d e e', trig (snd (readMem regTrigger e d)) e' = trig d e') /\
  (forall d e v e',
      trig (writeMem regTrigger e v d) e' = if e' =? e then v else trig d e').

(** [m] issues no access that [p] selects: the selected part of the trace
    is the same before and after, whatever [m] returns or throws. *)
Definition silent {A} (p : BusOp -> bool) (m : M Dev A) : Prop :=
  forall w, filter p (log (snd (m w))) = filter p (log w).

End Observations.

(** ** A simulated module *)

(** Modelled from the spec: a simulated module for concrete runs.  The A16
    registers and the PROM bytes are cells that keep the last value written,
    the trigger map is an array of cells, and the FIFO register pops the
    next 16-bit word of a queue (all ones when the queue is exhausted). *)
Record SimDev := mkSim {
  cells : Reg -> Z;
  trigger : Z -> Z;
  fifo : list Z
}.

Definition sim_readMem (r : Reg) (idx : Z) (d : SimDev) : Z * SimDev :=
  match r with
  | regTrigger => (trigger d idx, d)
  | regFifo =>
      match fifo d with
      | [] => (0xffff, d)
      | x :: q => (x, mkSim (cells d) (trigger d) q)
      end
  | _ => (cells d r, d)
  end.

Definition sim_writeMem (r : Reg) (idx v : Z) (d : SimDev) : SimDev :=
  match r with
  | regTrigger =>
      mkSim (cells d) (fun e => if e =? idx then v else trigger d e) (fifo d)
  | regFifo | regIdHigh | regIdLow => d
  | _ => mkSim (fun r' => if Reg_eqb r' r then v else cells d r')
               (trigger d) (fifo d)
  end.

#[global] Instance SimHardware : Hardware SimDev :=
  {| readMem := sim_readMem; writeMem := sim_writeMem |}.

(** A module with identity bytes [idh], [idl], status [st], an all-zero
    trigger map except entry 5 (which holds [t5]) and the FIFO words [q]. *)
Definition sim_module (idh idl st t5 : Z) (q : list Z) : SimDev :=
  mkSim (fun r => match r with
                  | regIdHigh => idh | regIdLow => idl
                  | regStatus => st | _ => 0 end)
        (fun e => if e =? 5 then t5 else 0)
        q.

Definition sim_world (idh idl st t5 : Z) (q : list Z) : World SimDev :=
  mkWorld (sim_module idh idl st t5 q) [].

(** identity [0xbb15], a FIFO holding one entry, trigger map all zero *)
Definition sim_ok : World SimDev := sim_world 0xbb 0x15 0 0 [0x0001; 0x2a02].
(** the same module reporting an empty FIFO *)
Definition sim_empty : World SimDev :=
  sim_world 0xbb 0x15 0x0100 0 [0x0001; 0x2a02].
(** some other industry pack *)
Definition sim_other : World SimDev := sim_world 0x12 0x34 0 0 [].
(** entry 5 of the trigger map already routes trigger bit 0 *)
Definition sim_routed : World SimDev := sim_world 0xbb 0x15 0 1 [].

(** ** Layout and access classes *)

(** [VME::Memory<VME::A16, VME::D8_D16, 0x100, LockType>] and
    [VME::Memory<VME::A32, VME::D16, 0x2000, LockType>]: the size in bytes
    of the window of each address space. *)
Definition window_size (sp : AddressSpace) : Z :=
  match sp with A16 => 0x100 | A32 => 0x2000 end.

(** The atomic words of a register: its entries, and for the FIFO register
    the two adjacent 16-bit words of the one entry ("the offset is assumed
    to be of the lower addressed register"). *)
Definition reg_words (r : Reg) : Z :=
  match r with
  | regFifo => 2
  | _ => RegEntries (desc r)
  end.

(** First byte of a register in its window, and the byte after its last. *)
Definition reg_first (r : Reg) : Z := RegOffset (desc r).
Definition reg_end (r : Reg) : Z :=
  RegOffset (desc r) + reg_words r * (bits (desc r) / 8).

Definition same_space (a b : AddressSpace) : bool :=
  match a, b with
  | A16, A16 | A32, A32 => true
  | _, _ => false
  end.

Definition op_reg (op : BusOp) : Reg :=
  match op with OpRead r _ _ => r | OpWrite r _ _ => r end.

(** An access, read or write, to register [r]. *)
Definition touches (r : Reg) (op : BusOp) : bool := Reg_eqb r (op_reg op).

(** A write to a register declared [NoWrite]. *)
Definition writes_NoWrite (op : BusOp) : bool :=
  match op with
  | OpWrite r _ _ =>
      match wacc (desc r) with NoWrite => true | _ => false end
  | OpRead _ _ _ => false
  end.

Section Bounds.

Context {Dev : Type} `{Hardware Dev}.

(** [m] appends at most [n] accesses to the trace, and removes none. *)
Definition emits_at_most {A} (n : nat) (m : M Dev A) : Prop :=
  forall w, exists l,
    log (snd (m w)) = log w ++ l /\ (List.length l <= n)%nat.

(** The PROM bytes are read-only memory: reading one leaves the module as
    it is. *)
Definition prom_is_rom : Prop :=
  forall d : Dev,
    after_read regIdHigh 0 d = d /\ after_read regIdLow 0 d = d.

(** A write to a register other than the trigger map leaves the trigger
    map, as [trig] shows it, alone. *)
Definition trigger_kept_by_other_writes (trig : Dev -> Z -> Z) : Prop :=
  forall r idx v d e,
    r <> regTrigger -> trig (writeMem r idx v d) e = trig d e.

(** No operation of the driver other than [readFifo] issues an access
    that [p] selects. *)
Definition silent_outside_readFifo (p : BusOp -> bool) : Prop :=
  (forall lock level, silent p (setFifoThreshold lock level)) /\
  (forall lock enable ev trigBit,
      silent p (adjustTclkReception lock enable ev trigBit)) /\
  (forall lock ev trigBit, silent p (getTclkReception lock ev trigBit)) /\
  (forall lock trigBit,
      silent p (setResetFifoTimestampTrigger lock trigBit)) /\
  (forall lock trigBit, silent p (setWriteFifoTrigger lock trigBit)) /\
  (forall lock, silent p (getStatus lock)) /\
  (forall ord lock, silent p (getModuleId ord lock)) /\
  (forall ord a16_offset a32_offset,
      silent p (HW ord a16_offset a32_offset)).

End Bounds.

(** * Properties *)

(** ** Arithmetic of the fixed-width types *)

Lemma wrap_range bits x : 0 <= bits -> 0 <= wrap bits x < 2 ^ bits.
Proof.
  intros Hb. unfold wrap. apply Z.mod_pos_bound. apply Z.pow_pos_nonneg; lia.
Qed.

Lemma wrap_small bits x : 0 <= x < 2 ^ bits -> wrap bits x = x.
Proof. intros Hx. unfold wrap. apply Z.mod_small. exact Hx. Qed.

Lemma wrap_idem bits x : 0 <= bits -> wrap bits (wrap bits x) = wrap bits x.
Proof. intros Hb. apply wrap_small. apply wrap_range. exact Hb. Qed.

Lemma wrap_testbit bits x i :
  0 <= bits -> Z.testbit (wrap bits x) i = (i <? bits) && Z.testbit x i.
Proof. intros Hb. unfold wrap. apply Z.testbit_mod_pow2. exact Hb. Qed.

Lemma u8_is_land x : u8 x = Z.land x 0xff.
Proof.
  unfold u8, wrap. change 0xff with (Z.ones 8).
  rewrite Z.land_ones by lia. reflexivity.
Qed.

Lemma land_pow2 a n :
  0 <= n -> Z.land a (2 ^ n) = if Z.testbit a n then 2 ^ n else 0.
Proof.
  intros Hn. apply Z.bits_inj'. intros m Hm.
  rewrite Z.land_spec, Z.pow2_bits_eqb by lia.
  destruct (Z.eqb_spec n m) as [->|Hne].
  - destruct (Z.testbit a m); simpl.
    + rewrite Z.pow2_bits_eqb by lia. symmetry. apply Z.eqb_refl.
    + rewrite Z.bits_0. reflexivity.
  - rewrite andb_false_r.
    destruct (Z.testbit a n).
    + rewrite Z.pow2_bits_eqb by lia. symmetry. apply Z.eqb_neq. exact Hne.
    + rewrite Z.bits_0. reflexivity.
Qed.

(** The two FIFO words, high word first, make one 32-bit word without
    overflow. *)
Lemma fifo_word_compose hi lo :
  0 <= hi < 2 ^ 16 -> 0 <= lo < 2 ^ 16 ->
  u32 (Z.lor (u32 (Z.shiftl hi 16)) lo) = Z.lor (Z.shiftl hi 16) lo /\
  Z.lor (Z.shiftl hi 16) lo = hi * 2 ^ 16 + lo.
Proof.
  intros Hh Hl.
  assert (Hsum : Z.lor (Z.shiftl hi 16) lo = hi * 2 ^ 16 + lo).
  { rewrite Z.shiftl_mul_pow2 by lia.
    assert (Hdisj : Z.land (hi * 2 ^ 16) lo = 0).
    { apply Z.bits_inj'. intros m Hm. rewrite Z.land_spec, Z.bits_0.
      destruct (Z.ltb_spec m 16) as [Hlt|Hge].
      - rewrite Z.mul_pow2_bits_low by lia. reflexivity.
      - assert (Hlo : Z.testbit lo m = false).
        { destruct (Z.eq_dec lo 0) as [->|Hnz]; [apply Z.bits_0|].
          apply Z.bits_above_log2; [lia|].
          assert (Z.log2 lo < 16) by (apply Z.log2_lt_pow2; lia). lia. }
        rewrite Hlo. apply andb_false_r. }
    rewrite <- Z.lxor_lor by exact Hdisj.
    symmetry. apply Z.add_nocarry_lxor. exact Hdisj. }
  split; [|exact Hsum].
  assert (Hs : u32 (Z.shiftl hi 16) = Z.shiftl hi 16).
  { apply wrap_small. rewrite Z.shiftl_mul_pow2 by lia. lia. }
  rewrite Hs, Hsum. apply wrap_small. lia.
Qed.

(** ** FifoEntry *)

(** C3. For every 32-bit word [w] other than [0xFFFFFFFF], the FifoEntry
    built from [w] is valid, its event is [w & 0xFF] and its stamp is
    [w >> 8]; the FifoEntry built from [0xFFFFFFFF], and the one of the
    default constructor, are not valid. *)
Theorem FifoEntry_decode :
  (forall w, 0 <= w < 2 ^ 32 -> w <> 0xFFFFFFFF ->
     isValid (FifoEntry_of w) = true /\
     event (FifoEntry_of w) = Z.land w 0xFF /\
     stamp (FifoEntry_of w) = Z.shiftr w 8) /\
  isValid (FifoEntry_of 0xFFFFFFFF) = false /\
  isValid FifoEntry_default = false.
Proof.
  split; [|split; reflexivity].
  intros w _ Hw. repeat split.
  - unfold isValid, FifoEntry_of, NO_VALUE. simpl.
    apply negb_true_iff, Z.eqb_neq. exact Hw.
  - unfold event, FifoEntry_of. simpl. apply u8_is_land.
Qed.

Lemma FifoEntry_decode_witness :
  isValid (FifoEntry_of 0x00012a02) = true /\
  event (FifoEntry_of 0x00012a02) = 0x02 /\
  stamp (FifoEntry_of 0x00012a02) = 0x00012a.
Proof.
  destruct FifoEntry_decode as [Hdec _].
  destruct (Hdec 0x00012a02) as (Hv & He & Hs).
  - lia.
  - discriminate.
  - rewrite Hv, He, Hs. repeat split.
Defined.

(** C10. The accessors are total functions that decode the reserved word
    like any other: on the entry built from [0xFFFFFFFF], and on the
    default-constructed one, [event] is [0xFF] and [stamp] is [0xFFFFFF],
    while [isValid] is false; nothing in the accessors' results tells the
    reserved word apart from the bit fields of a word. *)
Theorem FifoEntry_invalid_accessors :
  event (FifoEntry_of 0xFFFFFFFF) = 0xFF /\
  stamp (FifoEntry_of 0xFFFFFFFF) = 0xFFFFFF /\
  event FifoEntry_default = 0xFF /\
  stamp FifoEntry_default = 0xFFFFFF /\
  isValid (FifoEntry_of 0xFFFFFFFF) = false /\
  isValid FifoEntry_default = false /\
  (forall e, event e = Z.land (value e) 0xFF /\ stamp e = Z.shiftr (value e) 8).
Proof.
  repeat split.
  apply u8_is_land.
Qed.

(** ** Running the access primitives *)

Section DriverProperties.

Context {Dev : Type} `{Hardware Dev}.

Lemma bits_nonneg r : 0 <= bits (desc r).
Proof. destruct r; simpl; lia. Qed.

Lemma bus_word_range r idx (d : Dev) :
  0 <= bus_word r idx d < 2 ^ bits (desc r).
Proof. unfold bus_word. apply wrap_range, bits_nonneg. Qed.

Lemma API_readMem_run r idx (w : World Dev) :
  API_readMem r idx w =
  (Ok (bus_word r idx (hw w)),
   mkWorld (after_read r idx (hw w))
           (log w ++ [OpRead r idx (bus_word r idx (hw w))])).
Proof.
  unfold API_readMem, bus_word, after_read.
  destruct (readMem r idx (hw w)) as [raw d]. reflexivity.
Qed.

Lemma API_writeMem_run r idx v (w : World Dev) :
  0 <= v < 2 ^ bits (desc r) ->
  API_writeMem r idx v w =
  (Ok tt, mkWorld (writeMem r idx v (hw w)) (log w ++ [OpWrite r idx v])).
Proof.
  intros Hv. unfold API_writeMem. rewrite (wrap_small _ _ Hv). reflexivity.
Qed.

Lemma bind_ok {A B} (m : M Dev A) (k : A -> M Dev B) w a w' :
  m w = (Ok a, w') -> bind m k w = k a w'.
Proof. intros Hm. unfold bind. rewrite Hm. reflexivity. Qed.

Lemma bind_throw {A B} (m : M Dev A) (k : A -> M Dev B) w e w' :
  m w = (Throw e, w') -> bind m k w = (Throw e, w').
Proof. intros Hm. unfold bind. rewrite Hm. reflexivity. Qed.

Lemma a16_set_run lock r v (w : World Dev) :
  0 <= v < 2 ^ bits (desc r) ->
  a16_set lock r v w =
  (Ok tt, mkWorld (writeMem r 0 v (hw w)) (log w ++ [OpWrite r 0 v])).
Proof. apply API_writeMem_run. Qed.

Ltac run_read := rewrite API_readMem_run; cbn [hw log].
Ltac run_write := rewrite API_writeMem_run; cbn [hw log].

(** ** getStatus *)

(** C4. [getStatus] reads the status register once, writes the value read
    back to the status register once, in that order, and returns the value
    read. *)
Theorem getStatus_read_write_back (lock : LockType) (w : World Dev) :
  let s := bus_word regStatus 0 (hw w) in
  getStatus lock w =
  (Ok s,
   mkWorld (writeMem regStatus 0 s (after_read regStatus 0 (hw w)))
           (log w ++ [OpRead regStatus 0 s; OpWrite regStatus 0 s])).
Proof.
  intros s. unfold getStatus, bind, a16_get, a16_set, ret.
  run_read. run_write.
  - fold s. rewrite <- app_assoc. reflexivity.
  - apply bus_word_range.
Qed.

(** ** Range checks *)

(** C6. An out-of-range trigger bit is refused with a [logic_error] before
    any register access: [adjustTclkReception] for a bit above 7,
    [setResetFifoTimestampTrigger] and [setWriteFifoTrigger] for a bit
    below 1 or above 7.  The world (hardware state and trace) is the one
    before the call. *)
Theorem trigBit_out_of_range_rejected
    (lock : LockType) (enable : bool) (ev trigBit : Z) (w : World Dev) :
  (7 < trigBit ->
     adjustTclkReception lock enable ev trigBit w =
     (Throw (logic_error "illegal trigger bit value"), w)) /\
  (trigBit < 1 \/ 7 < trigBit ->
     setResetFifoTimestampTrigger lock trigBit w =
     (Throw (logic_error "illegal trigger bit value"), w) /\
     setWriteFifoTrigger lock trigBit w =
     (Throw (logic_error "illegal trigger bit value"), w)).
Proof.
  split.
  - intros Hb. unfold adjustTclkReception.
    destruct (Z.gtb_spec trigBit 7); [reflexivity|lia].
  - intros Hb.
    assert (Hc : (trigBit <? 1) || (trigBit >? 7) = true).
    { apply orb_true_iff. destruct Hb as [Hb|Hb].
      - left. apply Z.ltb_lt. exact Hb.
      - right. destruct (Z.gtb_spec trigBit 7); [reflexivity|lia]. }
    unfold setResetFifoTimestampTrigger, setWriteFifoTrigger.
    rewrite Hc. split; reflexivity.
Qed.

(** ** setFifoThreshold *)

(** C7. [setFifoThreshold(0)] throws a [logic_error] and leaves the world
    as it was; for a level from 1 to 255 it returns normally after one
    write, of exactly [level], to the FIFO threshold register. *)
Theorem setFifoThreshold_spec (lock : LockType) (w : World Dev) :
  setFifoThreshold lock 0 w =
  (Throw (logic_error "illegal FIFO threshold value"), w) /\
  (forall level, 1 <= level <= 255 ->
     setFifoThreshold lock level w =
     (Ok tt,
      mkWorld (writeMem regFifoThreshold 0 level (hw w))
              (log w ++ [OpWrite regFifoThreshold 0 level]))).
Proof.
  split; [reflexivity|].
  intros level Hl. unfold setFifoThreshold, a16_set.
  destruct (Z.gtb_spec level 0); [|lia].
  apply API_writeMem_run. simpl. lia.
Qed.

(** ** The two special triggers *)

(** C8. For a trigger bit from 1 to 7, [setResetFifoTimestampTrigger]
    writes [trigBit + 1] to the FIFO-clear-trigger register and
    [setWriteFifoTrigger] writes [trigBit + 1] to the FIFO-write-trigger
    register; each is the only access of its call. *)
Theorem special_trigger_written_plus_one
    (lock : LockType) (trigBit : Z) (w : World Dev) :
  1 <= trigBit <= 7 ->
  setResetFifoTimestampTrigger lock trigBit w =
  (Ok tt,
   mkWorld (writeMem regFifoClear 0 (trigBit + 1) (hw w))
           (log w ++ [OpWrite regFifoClear 0 (trigBit + 1)])) /\
  setWriteFifoTrigger lock trigBit w =
  (Ok tt,
   mkWorld (writeMem regFifoWrite 0 (trigBit + 1) (hw w))
           (log w ++ [OpWrite regFifoWrite 0 (trigBit + 1)])).
Proof.
  intros Hb.
  assert (Hc : (trigBit <? 1) || (trigBit >? 7) = false).
  { apply orb_false_iff. split.
    - apply Z.ltb_ge. lia.
    - destruct (Z.gtb_spec trigBit 7); [lia|reflexivity]. }
  unfold setResetFifoTimestampTrigger, setWriteFifoTrigger, a16_set.
  rewrite Hc. split; apply API_writeMem_run; simpl; lia.
Qed.

(** ** readFifo *)

Lemma FIFOEmpty_bit s :
  (Z.land s FIFOEmpty =? 0) = negb (Z.testbit s 8).
Proof.
  change FIFOEmpty with (2 ^ 8). rewrite land_pow2 by lia.
  destruct (Z.testbit s 8); reflexivity.
Qed.

Lemma Register_FifoEntry_read_run (w : World Dev) :
  let hi := bus_word regFifo 0 (hw w) in
  let d1 := after_read regFifo 0 (hw w) in
  let lo := bus_word regFifo 1 d1 in
  Register_FifoEntry_read w =
  (Ok (FifoEntry_of (Z.lor (Z.shiftl hi 16) lo)),
   mkWorld (after_read regFifo 1 d1)
           (log w ++ [OpRead regFifo 0 hi; OpRead regFifo 1 lo])).
Proof.
  intros hi d1 lo. unfold Register_FifoEntry_read, bind, ret.
  run_read. run_read. fold hi d1. fold lo.
  destruct (fifo_word_compose hi lo) as [Hw _];
    try (apply (bus_word_range regFifo)).
  rewrite Hw, <- app_assoc. reflexivity.
Qed.

(** C2. With the FIFO-empty bit (bit 8, mask [0x0100]) set in the status
    word it reads, [readFifo] returns the default, invalid entry and its
    only access is that status read: the FIFO register is not read.  With
    the bit clear it reads the FIFO register once, that is word 0 and then
    word 1, and returns the entry whose 32-bit word is the first word read
    shifted left by 16 and combined with the second. *)
Theorem readFifo_spec (lock : LockType) (w : World Dev) :
  let s := bus_word regStatus 0 (hw w) in
  let d1 := after_read regStatus 0 (hw w) in
  let hi := bus_word regFifo 0 d1 in
  let d2 := after_read regFifo 0 d1 in
  let lo := bus_word regFifo 1 d2 in
  let d3 := after_read regFifo 1 d2 in
  (Z.testbit s 8 = true ->
     readFifo lock w =
     (Ok FifoEntry_default, mkWorld d1 (log w ++ [OpRead regStatus 0 s])) /\
     isValid FifoEntry_default = false /\
     filter (is_read_of regFifo) (log (snd (readFifo lock w))) =
     filter (is_read_of regFifo) (log w)) /\
  (Z.testbit s 8 = false ->
     readFifo lock w =
     (Ok (FifoEntry_of (Z.lor (Z.shiftl hi 16) lo)),
      mkWorld d3 (log w ++ [OpRead regStatus 0 s;
                            OpRead regFifo 0 hi; OpRead regFifo 1 lo])) /\
     Z.lor (Z.shiftl hi 16) lo = hi * 2 ^ 16 + lo /\
     0 <= hi < 2 ^ 16 /\ 0 <= lo < 2 ^ 16).
Proof.
  intros s d1 hi d2 lo d3.
  assert (Hrun : readFifo lock w =
                 if Z.testbit s 8
                 then (Ok FifoEntry_default,
                       mkWorld d1 (log w ++ [OpRead regStatus 0 s]))
                 else Register_FifoEntry_read
                        (mkWorld d1 (log w ++ [OpRead regStatus 0 s]))).
  { unfold readFifo, bind, a16_get. run_read. fold s d1.
    rewrite FIFOEmpty_bit. destruct (Z.testbit s 8); reflexivity. }
  split; intros Hbit; rewrite Hrun, Hbit.
  - repeat split. cbn [snd log].
    rewrite filter_app. cbn. apply app_nil_r.
  - rewrite Register_FifoEntry_read_run. cbn [hw log].
    fold hi d2. fold lo d3. rewrite <- app_assoc. cbn [app].
    split; [reflexivity|].
    split; [apply fifo_word_compose; apply (bus_word_range regFifo)|].
    split; apply (bus_word_range regFifo).
Qed.

(** ** Construction *)

Lemma module_id_of_bytes high low :
  0 <= high < 2 ^ 8 -> 0 <= low < 2 ^ 8 ->
  module_id_of high low = high * 256 + low.
Proof.
  intros Hh Hl. unfold module_id_of, u16.
  rewrite (wrap_small 16 high) by lia.
  rewrite (wrap_small 16 low) by lia.
  rewrite Z.shiftl_mul_pow2 by lia.
  apply wrap_small. lia.
Qed.

Lemma getModuleId_run (ord : EvalOrder) (lock : LockType) (w : World Dev) :
  exists high low,
    0 <= high < 2 ^ 8 /\ 0 <= low < 2 ^ 8 /\
    fst (getModuleId ord lock w) = Ok (high * 256 + low) /\
    log (snd (getModuleId ord lock w)) = log w ++ id_reads ord high low.
Proof.
  destruct ord; unfold getModuleId, bind, a16_get, ret.
  - run_read. run_read.
    set (high := bus_word regIdHigh 0 (hw w)).
    set (low := bus_word regIdLow 0 (after_read regIdHigh 0 (hw w))).
    assert (Hh : 0 <= high < 2 ^ 8) by apply (bus_word_range regIdHigh).
    assert (Hl : 0 <= low < 2 ^ 8) by apply (bus_word_range regIdLow).
    exists high, low. repeat split; try lia.
    + cbn [fst]. rewrite module_id_of_bytes by assumption. reflexivity.
    + cbn [snd log id_reads]. rewrite <- app_assoc. reflexivity.
  - run_read. run_read.
    set (low := bus_word regIdLow 0 (hw w)).
    set (high := bus_word regIdHigh 0 (after_read regIdLow 0 (hw w))).
    assert (Hh : 0 <= high < 2 ^ 8) by apply (bus_word_range regIdHigh).
    assert (Hl : 0 <= low < 2 ^ 8) by apply (bus_word_range regIdLow).
    exists high, low. repeat split; try lia.
    + cbn [fst]. rewrite module_id_of_bytes by assumption. reflexivity.
    + cbn [snd log id_reads]. rewrite <- app_assoc. reflexivity.
Qed.

Lemma for_range_clear (lock : LockType) (n : nat) :
  forall (lo : Z) (w : World Dev),
  exists d,
    for_range lo n (fun ii => a32_set_element lock regTrigger ii 0) w =
    (Ok tt,
     mkWorld d (log w ++ map (fun k => OpWrite regTrigger (lo + Z.of_nat k) 0)
                             (seq 0 n))).
Proof.
  induction n as [|n IH]; intros lo w.
  - exists (hw w). cbn. rewrite app_nil_r. destruct w; reflexivity.
  - destruct (IH (lo + 1)
                (mkWorld (writeMem regTrigger lo 0 (hw w))
                         (log w ++ [OpWrite regTrigger lo 0]))) as [d Hd].
    exists d. cbn [for_range]. unfold bind at 1. unfold a32_set_element at 1.
    rewrite API_writeMem_run by (simpl; lia).
    rewrite Hd. cbn [log seq map]. rewrite <- app_assoc. cbn [app].
    rewrite Z.add_0_r. do 4 f_equal.
    rewrite <- seq_shift, map_map. apply map_ext.
    intros k. f_equal. lia.
Qed.

(** C1. With [high], [low] the two PROM bytes read: when the identity
    [high * 256 + low] is not [0xbb15], construction throws a
    [runtime_error] and the world is the one the two identity reads left,
    so no register has been written; when it is [0xbb15], construction
    returns normally and the accesses it adds to the trace are, in order,
    the two identity reads, [SW_Reset] written to the control register,
    zero written to the FIFO-write and to the FIFO-clear trigger registers,
    zero written to entries 0, 1, ..., 255 of the trigger map, and
    [EnableTCLK] written to the control register. *)
Theorem HW_construction
    (ord : EvalOrder) (a16_offset a32_offset : Z) (w : World Dev) :
  exists high low,
    let modid := high * 256 + low in
    let c := HW ord a16_offset a32_offset w in
    fst (getModuleId ord PMLockWithInt w) = Ok modid /\
    log (snd (getModuleId ord PMLockWithInt w)) =
      log w ++ id_reads ord high low /\
    (modid <> 0xbb15 ->
       fst c = Throw (runtime_error "IP-UCD not found at A16 offset") /\
       snd c = snd (getModuleId ord PMLockWithInt w) /\
       filter is_write (log (snd c)) = filter is_write (log w)) /\
    (modid = 0xbb15 ->
       fst c = Ok tt /\
       log (snd c) =
         log w ++ id_reads ord high low
           ++ [OpWrite regControl 0 (command_code SW_Reset);
               OpWrite regFifoWrite 0 0;
               OpWrite regFifoClear 0 0]
           ++ map (fun ii => OpWrite regTrigger (Z.of_nat ii) 0) (seq 0 256)
           ++ [OpWrite regControl 0 (command_code EnableTCLK)]).
Proof.
  destruct (getModuleId_run ord PMLockWithInt w)
    as (high & low & Hh & Hl & Hid & Hlog).
  exists high, low. cbv zeta.
  split; [exact Hid|]. split; [exact Hlog|].
  assert (Hgm : getModuleId ord PMLockWithInt w =
                (Ok (high * 256 + low),
                 snd (getModuleId ord PMLockWithInt w))).
  { rewrite <- Hid. apply surjective_pairing. }
  set (w1 := snd (getModuleId ord PMLockWithInt w)) in *.
  assert (Hrun : HW ord a16_offset a32_offset w =
                 if negb (high * 256 + low =? 0xbb15)
                 then (Throw (runtime_error "IP-UCD not found at A16 offset"),
                       w1)
                 else
                   (a16_set PMLockWithInt regControl (command_code SW_Reset) ;;;
                    a16_set PMLockWithInt regFifoWrite 0x00 ;;;
                    a16_set PMLockWithInt regFifoClear 0x00 ;;;
                    for_range 0 256
                      (fun ii =>
                         a32_set_element PMLockWithInt regTrigger ii 0x00) ;;;
                    a16_set PMLockWithInt regControl
                      (command_code EnableTCLK)) w1).
  { unfold HW. rewrite (bind_ok _ _ _ _ _ Hgm).
    destruct (negb (high * 256 + low =? 0xbb15)); reflexivity. }
  rewrite Hrun. split; intros Hm.
  - apply Z.eqb_neq in Hm. rewrite Hm. cbn [negb fst snd].
    repeat split.
    rewrite Hlog, filter_app.
    destruct ord; cbn; apply app_nil_r.
  - rewrite Hm, Z.eqb_refl. cbn [negb].
    erewrite bind_ok by (apply a16_set_run; simpl; lia).
    erewrite bind_ok by (apply a16_set_run; simpl; lia).
    erewrite bind_ok by (apply a16_set_run; simpl; lia).
    match goal with
    | |- context [bind (for_range 0 256 ?body) _ ?w0] =>
        destruct (for_range_clear PMLockWithInt 256 0 w0) as [d5 Hcl]
    end.
    rewrite (bind_ok _ _ _ _ _ Hcl).
    rewrite a16_set_run by (simpl; lia).
    cbn [fst snd hw log]. split; [reflexivity|].
    rewrite Hlog, <- !app_assoc. cbn [app].
    repeat f_equal.
Qed.

(** ** Which accesses an operation can issue *)

Lemma silent_ret {A} p (a : A) : silent p (ret a : M Dev A).
Proof. intros w. reflexivity. Qed.

Lemma silent_throw {A} p e : silent p (throw e : M Dev A).
Proof. intros w. reflexivity. Qed.

Lemma silent_bind {A B} p (m : M Dev A) (k : A -> M Dev B) :
  silent p m -> (forall a, silent p (k a)) -> silent p (bind m k).
Proof.
  intros Hm Hk w. unfold bind. specialize (Hm w).
  destruct (m w) as [[a|e] w']; cbn [snd] in Hm |- *.
  - rewrite Hk. exact Hm.
  - exact Hm.
Qed.

Lemma silent_if {A} p (b : bool) (m1 m2 : M Dev A) :
  silent p m1 -> silent p m2 -> silent p (if b then m1 else m2).
Proof. destruct b; auto. Qed.

Lemma silent_readMem p r idx :
  (forall v, p (OpRead r idx v) = false) -> silent p (API_readMem r idx).
Proof.
  intros Hp w. rewrite API_readMem_run. cbn [snd log].
  rewrite filter_app. cbn [filter]. rewrite Hp. apply app_nil_r.
Qed.

Lemma silent_writeMem p r idx v :
  (forall v', p (OpWrite r idx v') = false) -> silent p (API_writeMem r idx v).
Proof.
  intros Hp w. unfold API_writeMem. cbn [snd log].
  rewrite filter_app. cbn [filter]. rewrite Hp. apply app_nil_r.
Qed.

Lemma silent_for_range p (body : Z -> M Dev unit) n :
  (forall ii, silent p (body ii)) -> forall lo, silent p (for_range lo n body).
Proof.
  intros Hb. induction n as [|n IH]; intros lo; cbn [for_range].
  - apply silent_ret.
  - apply silent_bind; [apply Hb|]. intros _. apply IH.
Qed.

(** Syntax-directed proof search over the shape of the operation. *)
Ltac solve_silent :=
  repeat match goal with
    | |- forall _, _ => intro
    | |- silent _ ((fun _ => _) _) => cbv beta
    | |- silent _ (let _ := _ in _) => cbv zeta
    | |- silent _ (for_range _ _ _) => apply silent_for_range
    | |- silent _ (bind _ _) => apply silent_bind
    | |- silent _ (if _ then _ else _) => apply silent_if
    | |- silent _ (ret _) => apply silent_ret
    | |- silent _ (throw _) => apply silent_throw
    | |- silent _ (API_readMem _ _) =>
        apply silent_readMem; intros; reflexivity
    | |- silent _ (API_writeMem _ _ _) =>
        apply silent_writeMem; intros; reflexivity
    end.

Lemma readFifo_hw (lock : LockType) (w : World Dev) :
  let d1 := after_read regStatus 0 (hw w) in
  hw (snd (readFifo lock w)) =
  if Z.testbit (bus_word regStatus 0 (hw w)) 8 then d1
  else after_read regFifo 1 (after_read regFifo 0 d1).
Proof.
  intros d1. unfold readFifo, bind, a16_get, a32_get_regFifo, ret.
  run_read. rewrite FIFOEmpty_bit.
  destruct (Z.testbit (bus_word regStatus 0 (hw w)) 8); cbn [negb].
  - reflexivity.
  - rewrite Register_FifoEntry_read_run. reflexivity.
Qed.

(** C9. [readFifo] issues no write at all, hence none to the status
    register; its only access to the status register is one read; and any
    feature of the hardware state that reads leave alone (the latched
    status bits, under the read-to-clear protocol) is the same after
    [readFifo] as before.  [getStatus] does write the status register,
    once, with the value it read.  No other operation of the driver,
    construction included, writes the status register. *)
Theorem status_written_only_by_getStatus (lock : LockType) (w : World Dev) :
  filter is_write (log (snd (readFifo lock w))) = filter is_write (log w) /\
  filter (is_write_to regStatus) (log (snd (readFifo lock w))) =
    filter (is_write_to regStatus) (log w) /\
  filter (fun op => is_read_of regStatus op || is_write_to regStatus op)
         (log (snd (readFifo lock w))) =
    filter (fun op => is_read_of regStatus op || is_write_to regStatus op)
           (log w) ++ [OpRead regStatus 0 (bus_word regStatus 0 (hw w))] /\
  (forall latched : Dev -> Z,
      (forall r idx d, latched (after_read r idx d) = latched d) ->
      latched (hw (snd (readFifo lock w))) = latched (hw w)) /\
  filter (is_write_to regStatus) (log (snd (getStatus lock w))) =
    filter (is_write_to regStatus) (log w)
      ++ [OpWrite regStatus 0 (bus_word regStatus 0 (hw w))] /\
  (forall level, silent (is_write_to regStatus) (setFifoThreshold lock level)) /\
  (forall enable ev trigBit,
      silent (is_write_to regStatus)
             (adjustTclkReception lock enable ev trigBit)) /\
  (forall ev trigBit,
      silent (is_write_to regStatus) (getTclkReception lock ev trigBit)) /\
  (forall trigBit,
      silent (is_write_to regStatus)
             (setResetFifoTimestampTrigger lock trigBit)) /\
  (forall trigBit,
      silent (is_write_to regStatus) (setWriteFifoTrigger lock trigBit)) /\
  (forall ord a16_offset a32_offset,
      silent (is_write_to regStatus) (HW ord a16_offset a32_offset)).
Proof.
  assert (Hro : silent is_write (readFifo lock)).
  { unfold readFifo, a16_get, a32_get_regFifo, Register_FifoEntry_read.
    solve_silent. }
  assert (Hns : silent (is_write_to regStatus) (readFifo lock)).
  { unfold readFifo, a16_get, a32_get_regFifo, Register_FifoEntry_read.
    solve_silent. }
  split; [apply Hro|]. split; [apply Hns|].
  split.
  { unfold readFifo. unfold bind at 1. unfold a16_get.
    run_read.
    match goal with
    | |- context [(if ?c then ?m1 else ?m2) ?w0] =>
        assert (Hs : silent (fun op => is_read_of regStatus op
                                       || is_write_to regStatus op)
                            (if c then m1 else m2))
    end.
    { unfold a32_get_regFifo, Register_FifoEntry_read. solve_silent. }
    rewrite Hs. cbn [log]. rewrite filter_app. reflexivity. }
  split.
  { intros latched Hpassive. rewrite readFifo_hw.
    destruct (Z.testbit (bus_word regStatus 0 (hw w)) 8);
      rewrite ?Hpassive; reflexivity. }
  split.
  { unfold getStatus, bind, a16_get, a16_set, ret. run_read.
    rewrite API_writeMem_run by apply bus_word_range.
    cbn [snd log]. rewrite !filter_app. cbn. rewrite app_nil_r. reflexivity. }
  repeat apply conj; intros;
    unfold setFifoThreshold, adjustTclkReception, getTclkReception,
      setResetFifoTimestampTrigger, setWriteFifoTrigger, HW, getModuleId,
      setupInterrupt, a16_set, a16_get, a32_get_element, a32_set_element;
    try destruct ord; solve_silent.
Qed.

(** ** Trigger routing *)

Lemma mask_pow2 B : 0 <= B <= 7 -> u8 (Z.shiftl 1 B) = 2 ^ B.
Proof.
  intros HB. rewrite Z.shiftl_1_l. apply wrap_small. split.
  - apply Z.pow_nonneg. lia.
  - apply Z.pow_lt_mono_r; lia.
Qed.

Lemma adjustTclkReception_run lock (enable : bool) ev trigBit (w : World Dev) :
  trigBit <= 7 ->
  let mask := u8 (Z.shiftl 1 trigBit) in
  let prev := bus_word regTrigger ev (hw w) in
  let new :=
    u16 (if enable then Z.lor prev mask else Z.land prev (Z.lnot mask)) in
  adjustTclkReception lock enable ev trigBit w =
  (Ok tt,
   mkWorld (writeMem regTrigger ev new (after_read regTrigger ev (hw w)))
           (log w ++ [OpRead regTrigger ev prev; OpWrite regTrigger ev new])).
Proof.
  intros Hb mask prev new. unfold adjustTclkReception.
  destruct (Z.gtb_spec trigBit 7); [lia|].
  unfold setupInterrupt, bind, ret, a32_get_element, a32_set_element.
  run_read. fold mask prev new.
  rewrite API_writeMem_run by (apply (wrap_range 16); lia).
  cbn [hw log]. rewrite <- app_assoc. reflexivity.
Qed.

(** The trigger map after one call, entry by entry. *)
Lemma adjustTclkReception_trig trig lock (enable : bool) ev B
    (w : World Dev) :
  trigger_is_ram trig -> 0 <= B <= 7 ->
  forall e,
    trig (hw (snd (adjustTclkReception lock enable ev B w))) e =
    if e =? ev
    then u16 (if enable
              then Z.lor (u16 (trig (hw w) ev)) (2 ^ B)
              else Z.land (u16 (trig (hw w) ev)) (Z.lnot (2 ^ B)))
    else trig (hw w) e.
Proof.
  intros (Hrd & Hkeep & Hwr) HB e.
  rewrite adjustTclkReception_run by lia. cbn [snd hw].
  rewrite Hwr. unfold after_read, bus_word. rewrite Hkeep, Hrd.
  rewrite mask_pow2 by exact HB. reflexivity.
Qed.

Ltac bit_rewrite :=
  unfold u16;
  repeat first
    [ rewrite wrap_testbit by lia
    | rewrite Z.lor_spec
    | rewrite Z.land_spec
    | rewrite Z.lnot_spec by lia
    | rewrite Z.pow2_bits_eqb by lia ].

Lemma enable_twice p B :
  0 <= B ->
  u16 (Z.lor (u16 (u16 (Z.lor (u16 p) (2 ^ B)))) (2 ^ B)) =
  u16 (Z.lor (u16 p) (2 ^ B)).
Proof.
  intros HB. apply Z.bits_inj'. intros i Hi. bit_rewrite.
  destruct (i <? 16), (Z.testbit p i), (B =? i); reflexivity.
Qed.

Lemma disable_after_enable_bits p B i :
  0 <= B -> 0 <= i ->
  Z.testbit
    (u16 (Z.land (u16 (u16 (Z.lor (u16 p) (2 ^ B)))) (Z.lnot (2 ^ B)))) i =
  if B =? i then false else Z.testbit (u16 p) i.
Proof.
  intros HB Hi. bit_rewrite.
  destruct (i <? 16), (Z.testbit p i), (B =? i); reflexivity.
Qed.

Lemma enable_sets_bit p B :
  0 <= B <= 7 -> Z.testbit (u16 (Z.lor (u16 p) (2 ^ B))) B = true.
Proof.
  intros HB. unfold u16.
  rewrite wrap_testbit, Z.lor_spec, Z.pow2_bits_eqb by lia.
  rewrite Z.eqb_refl, orb_true_r.
  destruct (Z.ltb_spec B 16); [reflexivity|lia].
Qed.

(** C5 (as the code has it). On a module whose trigger map is memory, for
    a trigger bit [B] from 0 to 7: enabling [(E, B)] a second time leaves
    the whole trigger map as the first call left it, and bit [B] of entry
    [E] is then set.  Disabling [(E, B)] after enabling it leaves bit [B] of
    entry [E] clear, all other bits of the (16-bit) entry and all other
    entries as they were before the enable call; so bit [B] is back to its
    value before the enable call exactly when it was clear then. *)
Theorem adjustTclkReception_enable_disable
    (trig : Dev -> Z -> Z) (lock : LockType) (E B : Z) (w : World Dev) :
  trigger_is_ram trig -> 0 <= B <= 7 ->
  let w1 := snd (adjustTclkReception lock true E B w) in
  let w2 := snd (adjustTclkReception lock true E B w1) in
  let w3 := snd (adjustTclkReception lock false E B w1) in
  (forall e, trig (hw w2) e = trig (hw w1) e) /\
  Z.testbit (trig (hw w1) E) B = true /\
  Z.testbit (trig (hw w3) E) B = false /\
  (forall i, 0 <= i -> i <> B ->
     Z.testbit (trig (hw w3) E) i = Z.testbit (u16 (trig (hw w) E)) i) /\
  (forall e, e <> E -> trig (hw w3) e = trig (hw w) e) /\
  (Z.testbit (trig (hw w3) E) B = Z.testbit (trig (hw w) E) B <->
   Z.testbit (trig (hw w) E) B = false).
Proof.
  intros Hram HB w1 w2 w3.
  assert (H1 : forall e, trig (hw w1) e =
                 if e =? E then u16 (Z.lor (u16 (trig (hw w) E)) (2 ^ B))
                 else trig (hw w) e).
  { intros e. unfold w1. rewrite (adjustTclkReception_trig trig) by assumption.
    reflexivity. }
  assert (H2 : forall e, trig (hw w2) e =
                 if e =? E then u16 (Z.lor (u16 (trig (hw w1) E)) (2 ^ B))
                 else trig (hw w1) e).
  { intros e. unfold w2. rewrite (adjustTclkReception_trig trig) by assumption.
    reflexivity. }
  assert (H3 : forall e, trig (hw w3) e =
                 if e =? E
                 then u16 (Z.land (u16 (trig (hw w1) E)) (Z.lnot (2 ^ B)))
                 else trig (hw w1) e).
  { intros e. unfold w3. rewrite (adjustTclkReception_trig trig) by assumption.
    reflexivity. }
  assert (H1E : trig (hw w1) E = u16 (Z.lor (u16 (trig (hw w) E)) (2 ^ B))).
  { rewrite H1, Z.eqb_refl. reflexivity. }
  assert (H3B : Z.testbit (trig (hw w3) E) B = false).
  { rewrite H3, Z.eqb_refl, H1E, disable_after_enable_bits by lia.
    rewrite Z.eqb_refl. reflexivity. }
  split.
  { intros e. rewrite H2. destruct (Z.eqb_spec e E) as [Heq|Hne]; [|reflexivity].
    rewrite Heq, H1E. apply enable_twice. lia. }
  split.
  { rewrite H1E. apply enable_sets_bit. exact HB. }
  split; [exact H3B|].
  split.
  { intros i Hi Hne. rewrite H3, Z.eqb_refl, H1E.
    rewrite disable_after_enable_bits by lia.
    destruct (Z.eqb_spec B i); [congruence|reflexivity]. }
  split.
  { intros e Hne. apply Z.eqb_neq in Hne.
    rewrite H3, Hne, (H1 e), Hne. reflexivity. }
  rewrite H3B. split; intros Heq; congruence.
Qed.

(** ** getTclkReception *)

Lemma getTclkReception_run lock ev trigBit (w : World Dev) :
  0 <= trigBit <= 7 ->
  let cur := bus_word regTrigger ev (hw w) in
  getTclkReception lock ev trigBit w =
  (Ok (Z.testbit cur trigBit),
   mkWorld (after_read regTrigger ev (hw w))
           (log w ++ [OpRead regTrigger ev cur])).
Proof.
  intros HB cur. unfold getTclkReception.
  destruct (Z.gtb_spec trigBit 7); [lia|].
  unfold bind, ret, a32_get_element. run_read. fold cur.
  rewrite mask_pow2 by exact HB. rewrite land_pow2 by lia.
  destruct (Z.testbit cur trigBit); [|reflexivity].
  assert (Hnz : (2 ^ trigBit =? 0) = false).
  { apply Z.eqb_neq. apply Z.pow_nonzero; lia. }
  rewrite Hnz. reflexivity.
Qed.

(** [getTclkReception] refuses a trigger bit above 7 with a [logic_error]
    before any access.  For a bit from 0 to 7 its only access is one read
    of the trigger-map entry of the event, it writes nothing, and it
    returns whether that bit is set in the word read. *)
Theorem getTclkReception_spec (lock : LockType) (ev trigBit : Z)
    (w : World Dev) :
  (7 < trigBit ->
     getTclkReception lock ev trigBit w =
     (Throw (logic_error "illegal trigger bit value"), w)) /\
  (0 <= trigBit <= 7 ->
     getTclkReception lock ev trigBit w =
     (Ok (Z.testbit (bus_word regTrigger ev (hw w)) trigBit),
      mkWorld (after_read regTrigger ev (hw w))
              (log w ++ [OpRead regTrigger ev
                           (bus_word regTrigger ev (hw w))]))).
Proof.
  split.
  - intros HB. unfold getTclkReception.
    destruct (Z.gtb_spec trigBit 7); [reflexivity|lia].
  - intros HB. apply getTclkReception_run. exact HB.
Qed.

Lemma getTclkReception_trig trig lock ev B (w : World Dev) :
  trigger_is_ram trig -> 0 <= B <= 7 ->
  fst (getTclkReception lock ev B w) =
  Ok (Z.testbit (u16 (trig (hw w) ev)) B).
Proof.
  intros (Hrd & _ & _) HB. rewrite getTclkReception_run by exact HB.
  cbn [fst]. unfold bus_word. rewrite Hrd. reflexivity.
Qed.

Lemma u16_idem x : u16 (u16 x) = u16 x.
Proof. apply (wrap_idem 16). lia. Qed.

Lemma adjusted_bits (enable : bool) p B i :
  0 <= B -> 0 <= i ->
  Z.testbit
    (u16 (if enable then Z.lor (u16 p) (2 ^ B)
          else Z.land (u16 p) (Z.lnot (2 ^ B)))) i =
  if B =? i then enable && (i <? 16) else Z.testbit (u16 p) i.
Proof.
  intros HB Hi. destruct enable; bit_rewrite;
    destruct (i <? 16), (Z.testbit p i), (B =? i); reflexivity.
Qed.

(** One call of [adjustTclkReception] with a bit [B] from 0 to 7, on a
    module whose trigger map is memory: it returns normally, bit [B] of
    entry [E] becomes [enable], the other bits of the entry keep the value
    they had in the 16-bit word read, and every other entry is as before. *)
Theorem adjustTclkReception_sets_one_bit
    (trig : Dev -> Z -> Z) (lock : LockType) (enable : bool) (E B : Z)
    (w : World Dev) :
  trigger_is_ram trig -> 0 <= B <= 7 ->
  fst (adjustTclkReception lock enable E B w) = Ok tt /\
  Z.testbit (trig (hw (snd (adjustTclkReception lock enable E B w))) E) B =
    enable /\
  (forall i, 0 <= i -> i <> B ->
     Z.testbit (trig (hw (snd (adjustTclkReception lock enable E B w))) E) i =
     Z.testbit (u16 (trig (hw w) E)) i) /\
  (forall e, e <> E ->
     trig (hw (snd (adjustTclkReception lock enable E B w))) e =
     trig (hw w) e).
Proof.
  intros Hram HB.
  split; [rewrite adjustTclkReception_run by lia; reflexivity|].
  split; [|split].
  - rewrite (adjustTclkReception_trig trig) by assumption.
    rewrite Z.eqb_refl, adjusted_bits, Z.eqb_refl by lia.
    destruct (Z.ltb_spec B 16); [apply andb_true_r|lia].
  - intros i Hi Hne.
    rewrite (adjustTclkReception_trig trig) by assumption.
    rewrite Z.eqb_refl, adjusted_bits by lia.
    destruct (Z.eqb_spec B i); [congruence|reflexivity].
  - intros e Hne.
    rewrite (adjustTclkReception_trig trig) by assumption.
    apply Z.eqb_neq in Hne. rewrite Hne. reflexivity.
Qed.

(** After [adjustTclkReception(enable, E, B)], [getTclkReception(E, B)]
    returns [enable], and for any other pair [(E', B')] it returns what it
    returned before the call (bits from 0 to 7, trigger map as memory). *)
Theorem getTclkReception_after_adjust
    (trig : Dev -> Z -> Z) (lock : LockType) (enable : bool)
    (E B E' B' : Z) (w : World Dev) :
  trigger_is_ram trig -> 0 <= B <= 7 -> 0 <= B' <= 7 ->
  fst (getTclkReception lock E B
         (snd (adjustTclkReception lock enable E B w))) = Ok enable /\
  (E' <> E \/ B' <> B ->
   fst (getTclkReception lock E' B'
          (snd (adjustTclkReception lock enable E B w))) =
   fst (getTclkReception lock E' B' w)).
Proof.
  intros Hram HB HB'. split.
  - rewrite (getTclkReception_trig trig) by assumption.
    rewrite (adjustTclkReception_trig trig) by assumption.
    rewrite Z.eqb_refl. f_equal.
    rewrite u16_idem, adjusted_bits, Z.eqb_refl by lia.
    destruct (Z.ltb_spec B 16); [apply andb_true_r|lia].
  - intros Hother.
    rewrite !(getTclkReception_trig trig) by assumption.
    rewrite (adjustTclkReception_trig trig) by assumption.
    f_equal. destruct (Z.eqb_spec E' E) as [Heq|Hne]; [|reflexivity].
    subst E'. destruct Hother as [Hc|Hb]; [congruence|].
    rewrite u16_idem, adjusted_bits by lia.
    destruct (Z.eqb_spec B B'); [congruence|reflexivity].
Qed.

(** Two calls of [adjustTclkReception] on different (event, bit) pairs
    leave the same trigger map in either order. *)
Theorem adjustTclkReception_commute
    (trig : Dev -> Z -> Z) (lock : LockType) (en1 en2 : bool)
    (E1 B1 E2 B2 : Z) (w : World Dev) :
  trigger_is_ram trig -> 0 <= B1 <= 7 -> 0 <= B2 <= 7 ->
  E1 <> E2 \/ B1 <> B2 ->
  forall e,
    trig (hw (snd (adjustTclkReception lock en2 E2 B2
                     (snd (adjustTclkReception lock en1 E1 B1 w))))) e =
    trig (hw (snd (adjustTclkReception lock en1 E1 B1
                     (snd (adjustTclkReception lock en2 E2 B2 w))))) e.
Proof.
  intros Hram HB1 HB2 Hdiff e.
  rewrite !(adjustTclkReception_trig trig) by assumption.
  destruct (Z.eqb_spec E1 E2) as [Heq|Hne].
  - subst E2. destruct Hdiff as [Hc|Hb]; [congruence|].
    rewrite !Z.eqb_refl.
    destruct (Z.eqb_spec e E1) as [_|_]; [|reflexivity].
    apply Z.bits_inj'. intros i Hi.
    rewrite !adjusted_bits, !u16_idem, !adjusted_bits by lia.
    destruct (Z.eqb_spec B1 i), (Z.eqb_spec B2 i);
      try congruence; reflexivity.
  - assert (H21 : (E2 =? E1) = false) by (apply Z.eqb_neq; congruence).
    rewrite ?H21.
    destruct (Z.eqb_spec e E2) as [He2|He2], (Z.eqb_spec e E1) as [He1|He1];
      try congruence; reflexivity.
Qed.

(** ** The entry readFifo returns *)

Lemma readFifo_run (lock : LockType) (w : World Dev) :
  let s := bus_word regStatus 0 (hw w) in
  let w1 := mkWorld (after_read regStatus 0 (hw w))
                    (log w ++ [OpRead regStatus 0 s]) in
  readFifo lock w =
  if Z.testbit s 8 then (Ok FifoEntry_default, w1)
  else Register_FifoEntry_read w1.
Proof.
  intros s w1. unfold readFifo, bind, a16_get. run_read. fold s. fold w1.
  rewrite FIFOEmpty_bit. destruct (Z.testbit s 8); reflexivity.
Qed.

(** When the status word read has the FIFO-empty bit clear, the entry
    [readFifo] returns has as event the low byte of the second FIFO word
    and as stamp the first word followed by the high byte of the second;
    it is invalid exactly when both words read are [0xFFFF]. *)
Theorem readFifo_entry_fields (lock : LockType) (w : World Dev) :
  let d1 := after_read regStatus 0 (hw w) in
  let hi := bus_word regFifo 0 d1 in
  let lo := bus_word regFifo 1 (after_read regFifo 0 d1) in
  Z.testbit (bus_word regStatus 0 (hw w)) 8 = false ->
  exists e,
    fst (readFifo lock w) = Ok e /\
    event e = Z.land lo 0xFF /\
    stamp e = hi * 256 + Z.shiftr lo 8 /\
    (isValid e = false <-> hi = 0xFFFF /\ lo = 0xFFFF).
Proof.
  intros d1 hi lo Hbit.
  assert (Hh : 0 <= hi < 2 ^ 16) by apply (bus_word_range regFifo).
  assert (Hl : 0 <= lo < 2 ^ 16) by apply (bus_word_range regFifo).
  destruct (fifo_word_compose hi lo Hh Hl) as [_ Hsum].
  exists (FifoEntry_of (Z.lor (Z.shiftl hi 16) lo)).
  split.
  { rewrite readFifo_run, Hbit, Register_FifoEntry_read_run. reflexivity. }
  unfold event, stamp, isValid, FifoEntry_of, NO_VALUE. cbn [value].
  rewrite Hsum. split; [|split].
  - rewrite <- u8_is_land. unfold u8, wrap.
    change (2 ^ 16) with (256 * 2 ^ 8).
    rewrite Z.mul_assoc, Z.add_comm, Z.mod_add by lia. reflexivity.
  - rewrite !Z.shiftr_div_pow2 by lia.
    change (2 ^ 16) with (256 * 2 ^ 8).
    rewrite Z.mul_assoc, Z.add_comm, Z.div_add by lia. lia.
  - rewrite negb_false_iff, Z.eqb_eq. lia.
Qed.

(** ** The module identity *)

(** With the PROM bytes in read-only memory, the identity [getModuleId]
    returns and the hardware state it leaves do not depend on which byte
    the compiler reads first; the identity is a 16-bit value. *)
Theorem getModuleId_order_independent (lock : LockType) (w : World Dev) :
  prom_is_rom ->
  fst (getModuleId HighFirst lock w) = fst (getModuleId LowFirst lock w) /\
  hw (snd (getModuleId HighFirst lock w)) = hw w /\
  hw (snd (getModuleId LowFirst lock w)) = hw w /\
  fst (getModuleId HighFirst lock w) =
    Ok (bus_word regIdHigh 0 (hw w) * 256 + bus_word regIdLow 0 (hw w)) /\
  0 <= bus_word regIdHigh 0 (hw w) * 256 + bus_word regIdLow 0 (hw w)
    < 2 ^ 16.
Proof.
  intros Hrom.
  destruct (Hrom (hw w)) as [Hhigh Hlow].
  assert (Hh : 0 <= bus_word regIdHigh 0 (hw w) < 2 ^ 8)
    by apply (bus_word_range regIdHigh).
  assert (Hl : 0 <= bus_word regIdLow 0 (hw w) < 2 ^ 8)
    by apply (bus_word_range regIdLow).
  unfold getModuleId, bind, a16_get, ret.
  repeat run_read. cbn [fst snd hw].
  rewrite ?Hhigh, ?Hlow, ?Hhigh, ?Hlow.
  rewrite module_id_of_bytes by assumption.
  repeat apply conj; try reflexivity; lia.
Qed.

Lemma HW_after_id (ord : EvalOrder) (a16_offset a32_offset : Z)
    (w : World Dev) (modid : Z) :
  fst (getModuleId ord PMLockWithInt w) = Ok modid ->
  HW ord a16_offset a32_offset w =
  if negb (modid =? 0xbb15)
  then (Throw (runtime_error "IP-UCD not found at A16 offset"),
        snd (getModuleId ord PMLockWithInt w))
  else
    (a16_set PMLockWithInt regControl (command_code SW_Reset) ;;;
     a16_set PMLockWithInt regFifoWrite 0x00 ;;;
     a16_set PMLockWithInt regFifoClear 0x00 ;;;
     for_range 0 256
       (fun ii => a32_set_element PMLockWithInt regTrigger ii 0x00) ;;;
     a16_set PMLockWithInt regControl (command_code EnableTCLK))
      (snd (getModuleId ord PMLockWithInt w)).
Proof.
  intros Hid.
  assert (Hgm : getModuleId ord PMLockWithInt w =
                (Ok modid, snd (getModuleId ord PMLockWithInt w))).
  { rewrite <- Hid. apply surjective_pairing. }
  unfold HW. rewrite (bind_ok _ _ _ _ _ Hgm).
  destruct (negb (modid =? 0xbb15)); reflexivity.
Qed.

(** The world a successful construction leaves: the last write, on top of
    the hardware state the clearing loop left. *)
Lemma HW_ok_world (ord : EvalOrder) (a16_offset a32_offset : Z)
    (w : World Dev) :
  fst (getModuleId ord PMLockWithInt w) = Ok 0xbb15 ->
  exists w4,
    HW ord a16_offset a32_offset w =
    (Ok tt,
     mkWorld
       (writeMem regControl 0 (command_code EnableTCLK)
          (hw (snd (for_range 0 256
                      (fun ii => a32_set_element PMLockWithInt regTrigger ii 0)
                      w4))))
       (log (snd (for_range 0 256
                    (fun ii => a32_set_element PMLockWithInt regTrigger ii 0)
                    w4))
          ++ [OpWrite regControl 0 (command_code EnableTCLK)])).
Proof.
  intros Hid. rewrite (HW_after_id _ _ _ _ _ Hid). rewrite Z.eqb_refl.
  cbn [negb].
  erewrite bind_ok by (apply a16_set_run; simpl; lia).
  erewrite bind_ok by (apply a16_set_run; simpl; lia).
  erewrite bind_ok by (apply a16_set_run; simpl; lia).
  match goal with
  | |- context [bind (for_range 0 256 ?body) _ ?w0] =>
      exists w0;
      destruct (for_range_clear PMLockWithInt 256 0 w0) as [d5 Hcl]
  end.
  rewrite (bind_ok _ _ _ _ _ Hcl).
  rewrite a16_set_run by (simpl; lia).
  rewrite Hcl. reflexivity.
Qed.


(** ** The trigger map after construction *)

Lemma for_range_clear_trig trig (lock : LockType) (n : nat) :
  trigger_is_ram trig ->
  forall (lo : Z) (w : World Dev) (e : Z),
    trig (hw (snd (for_range lo n
                     (fun ii => a32_set_element lock regTrigger ii 0) w))) e =
    if (lo <=? e) && (e <? lo + Z.of_nat n) then 0 else trig (hw w) e.
Proof.
  intros (_ & _ & Hwr).
  induction n as [|n IH]; intros lo w e.
  - cbn [for_range ret snd].
    destruct (Z.leb_spec lo e), (Z.ltb_spec e (lo + Z.of_nat 0));
      cbn [andb]; try reflexivity; lia.
  - set (w1 := mkWorld (writeMem regTrigger lo 0 (hw w))
                        (log w ++ [OpWrite regTrigger lo 0])).
    assert (Hstep :
              for_range lo (S n)
                (fun ii => a32_set_element lock regTrigger ii 0) w =
              for_range (lo + 1) n
                (fun ii => a32_set_element lock regTrigger ii 0) w1).
    { cbn [for_range]. unfold bind at 1. unfold a32_set_element at 1.
      rewrite API_writeMem_run by (simpl; lia). reflexivity. }
    rewrite Hstep, IH. unfold w1. cbn [hw]. rewrite Hwr.
    rewrite Nat2Z.inj_succ.
    destruct (Z.leb_spec (lo + 1) e), (Z.ltb_spec e (lo + 1 + Z.of_nat n)),
      (Z.leb_spec lo e), (Z.ltb_spec e (lo + Z.succ (Z.of_nat n))),
      (Z.eqb_spec e lo); cbn [andb]; try reflexivity; lia.
Qed.

(** After a construction that returned normally, on a module whose trigger
    map is memory that writes to the other registers leave alone, every
    entry 0..255 of the trigger map is zero, so [getTclkReception] answers
    false for every event and every trigger bit from 0 to 7. *)
Theorem HW_leaves_trigger_map_clear
    (trig : Dev -> Z -> Z) (ord : EvalOrder) (a16_offset a32_offset : Z)
    (w : World Dev) :
  trigger_is_ram trig -> trigger_kept_by_other_writes trig ->
  fst (HW ord a16_offset a32_offset w) = Ok tt ->
  forall e, 0 <= e < 256 ->
    trig (hw (snd (HW ord a16_offset a32_offset w))) e = 0 /\
    (forall B, 0 <= B <= 7 ->
       fst (getTclkReception PMLockWithInt e B
              (snd (HW ord a16_offset a32_offset w))) = Ok false).
Proof.
  intros Hram Hkept Hok e He.
  assert (Hzero : trig (hw (snd (HW ord a16_offset a32_offset w))) e = 0).
  { destruct (getModuleId_run ord PMLockWithInt w)
      as (high & low & _ & _ & Hid & _).
    destruct (Z.eqb_spec (high * 256 + low) 0xbb15) as [Heq|Hne].
    - rewrite Heq in Hid.
      destruct (HW_ok_world ord a16_offset a32_offset w Hid) as [w4 Hrun].
      rewrite Hrun. cbn [snd hw].
      rewrite Hkept by discriminate.
      rewrite (for_range_clear_trig trig) by exact Hram.
      destruct (Z.leb_spec 0 e), (Z.ltb_spec e (0 + Z.of_nat 256));
        cbn [andb]; try reflexivity; lia.
    - rewrite (HW_after_id _ _ _ _ _ Hid) in Hok.
      apply Z.eqb_neq in Hne. rewrite Hne in Hok. discriminate Hok. }
  split; [exact Hzero|].
  intros B HB. rewrite (getTclkReception_trig trig) by assumption.
  rewrite Hzero. f_equal. unfold u16, wrap. rewrite Z.mod_0_l by lia.
  apply Z.bits_0.
Qed.

(** ** Access classes *)

(** No operation of the driver writes a register declared [NoWrite] (the
    PROM bytes and the FIFO register), and no operation other than
    [readFifo] accesses the FIFO register at all: nothing else pops the
    FIFO. *)
Theorem driver_respects_access_classes :
  (forall lock, silent writes_NoWrite (readFifo lock)) /\
  silent_outside_readFifo writes_NoWrite /\
  silent_outside_readFifo (touches regFifo).
Proof.
  unfold silent_outside_readFifo.
  repeat apply conj; intros;
    unfold readFifo, getStatus, setFifoThreshold, adjustTclkReception,
      getTclkReception, setResetFifoTimestampTrigger, setWriteFifoTrigger,
      HW, getModuleId, setupInterrupt, a32_get_regFifo,
      Register_FifoEntry_read, a16_set, a16_get, a32_get_element,
      a32_set_element;
    try destruct ord; solve_silent.
Qed.

(** ** How many accesses an operation issues *)

Lemma emits_ret {A} (a : A) : emits_at_most 0 (ret a : M Dev A).
Proof. intros w. exists []. split; [symmetry; apply app_nil_r|apply le_n]. Qed.

Lemma emits_throw {A} e : emits_at_most 0 (throw e : M Dev A).
Proof. intros w. exists []. split; [symmetry; apply app_nil_r|apply le_n]. Qed.

Lemma emits_readMem r idx : emits_at_most 1 (API_readMem r idx).
Proof.
  intros w. rewrite API_readMem_run. cbn [snd log].
  eexists. split; [reflexivity|apply le_n].
Qed.

Lemma emits_writeMem r idx v : emits_at_most 1 (API_writeMem r idx v).
Proof.
  intros w. unfold API_writeMem. cbn [snd log].
  eexists. split; [reflexivity|apply le_n].
Qed.

Lemma emits_bind {A B} n1 n2 (m : M Dev A) (k : A -> M Dev B) :
  emits_at_most n1 m -> (forall a, emits_at_most n2 (k a)) ->
  emits_at_most (n1 + n2) (bind m k).
Proof.
  intros Hm Hk w. unfold bind. destruct (Hm w) as (l1 & Hl1 & Hn1).
  destruct (m w) as [[a|e] w']; cbn [snd] in Hl1 |- *.
  - destruct (Hk a w') as (l2 & Hl2 & Hn2).
    exists (l1 ++ l2). split.
    + rewrite Hl2, Hl1. symmetry. apply app_assoc.
    + rewrite length_app. lia.
  - exists l1. split; [exact Hl1|lia].
Qed.

Lemma emits_if {A} n1 n2 (b : bool) (m1 m2 : M Dev A) :
  emits_at_most n1 m1 -> emits_at_most n2 m2 ->
  emits_at_most (Nat.max n1 n2) (if b then m1 else m2).
Proof.
  intros H1 H2 w. destruct b.
  - destruct (H1 w) as (l & Hl & Hn). exists l. split; [exact Hl|lia].
  - destruct (H2 w) as (l & Hl & Hn). exists l. split; [exact Hl|lia].
Qed.

Lemma emits_for_range k (body : Z -> M Dev unit) n :
  (forall ii, emits_at_most k (body ii)) ->
  forall lo, emits_at_most (n * k) (for_range lo n body).
Proof.
  intros Hb. induction n as [|n IH]; intros lo; cbn [for_range Nat.mul].
  - apply emits_ret.
  - apply emits_bind; [apply Hb|]. intros _. apply IH.
Qed.

Lemma emits_weaken {A} n n' (m : M Dev A) :
  emits_at_most n m -> (n <= n')%nat -> emits_at_most n' m.
Proof.
  intros Hm Hle w. destruct (Hm w) as (l & Hl & Hn).
  exists l. split; [exact Hl|lia].
Qed.

Ltac count_accesses :=
  repeat match goal with
    | |- forall _, _ => intro
    | |- emits_at_most _ ((fun _ => _) _) => cbv beta
    | |- emits_at_most _ (let _ := _ in _) => cbv zeta
    | |- emits_at_most _ (for_range _ _ _) => eapply emits_for_range
    | |- emits_at_most _ (bind _ _) => eapply emits_bind
    | |- emits_at_most _ (if _ then _ else _) => eapply emits_if
    | |- emits_at_most _ (ret _) => eapply emits_ret
    | |- emits_at_most _ (throw _) => eapply emits_throw
    | |- emits_at_most _ (API_readMem _ _) => eapply emits_readMem
    | |- emits_at_most _ (API_writeMem _ _ _) => eapply emits_writeMem
    end.

Ltac bound_accesses :=
  eapply emits_weaken; [count_accesses|apply Nat.leb_le; reflexivity].

(** Every operation issues a bounded number of accesses, whatever its
    arguments and the module: at most one for [setFifoThreshold],
    [getTclkReception] and the two special-trigger setters, two for
    [adjustTclkReception], [getStatus] and [getModuleId], three for
    [readFifo], and 262 for construction; and none removes an access from
    the trace. *)
Theorem access_bounds (lock : LockType) :
  (forall level, emits_at_most 1 (setFifoThreshold lock level)) /\
  (forall enable ev trigBit,
      emits_at_most 2 (adjustTclkReception lock enable ev trigBit)) /\
  (forall ev trigBit, emits_at_most 1 (getTclkReception lock ev trigBit)) /\
  (forall trigBit,
      emits_at_most 1 (setResetFifoTimestampTrigger lock trigBit)) /\
  (forall trigBit, emits_at_most 1 (setWriteFifoTrigger lock trigBit)) /\
  emits_at_most 2 (getStatus lock) /\
  emits_at_most 3 (readFifo lock) /\
  (forall ord, emits_at_most 2 (getModuleId ord lock)) /\
  (forall ord a16_offset a32_offset,
      emits_at_most 262 (HW ord a16_offset a32_offset)).
Proof.
  repeat apply conj; intros;
    unfold readFifo, getStatus, setFifoThreshold, adjustTclkReception,
      getTclkReception, setResetFifoTimestampTrigger, setWriteFifoTrigger,
      HW, getModuleId, setupInterrupt, a32_get_regFifo,
      Register_FifoEntry_read, a16_set, a16_get, a32_get_element,
      a32_set_element;
    try destruct ord; bound_accesses.
Qed.

End DriverProperties.

(** ** Runs on the simulated module *)

Lemma sim_trigger_is_ram : trigger_is_ram trigger.
Proof.
  repeat apply conj.
  - intros d e. reflexivity.
  - intros d e e'. reflexivity.
  - intros d e v e'. reflexivity.
Defined.

Lemma sim_reads_keep_cells (r' : Reg) :
  forall r idx (d : SimDev), cells (after_read r idx d) r' = cells d r'.
Proof.
  intros r idx d. unfold after_read. cbn [readMem SimHardware].
  destruct r; cbn [sim_readMem snd]; try reflexivity.
  destruct (fifo d); reflexivity.
Defined.

Example HW_issues_262_accesses :
  List.length (log (snd (HW HighFirst 0 0 sim_ok))) = 262%nat.
Proof. vm_compute. reflexivity. Qed.

Example getTclkReception_after_enable :
  fst (getTclkReception PMLockWithInt 5 3
         (snd (adjustTclkReception PMLockWithInt true 5 3 sim_ok))) = Ok true /\
  fst (getTclkReception PMLockWithInt 5 2
         (snd (adjustTclkReception PMLockWithInt true 5 3 sim_ok))) = Ok false.
Proof. split; vm_compute; reflexivity. Qed.

Lemma HW_construction_witness :
  fst (HW HighFirst 0 0 sim_ok) = Ok tt /\
  fst (HW HighFirst 0 0 sim_other) =
    Throw (runtime_error "IP-UCD not found at A16 offset") /\
  filter is_write (log (snd (HW HighFirst 0 0 sim_other))) = [].
Proof.
  destruct (HW_construction HighFirst 0 0 sim_ok)
    as (h & l & Hid & _ & _ & Hgood).
  destruct (HW_construction HighFirst 0 0 sim_other)
    as (h' & l' & Hid' & _ & Hbad & _).
  change (fst (getModuleId HighFirst PMLockWithInt sim_ok))
    with (@Ok Z 0xbb15) in Hid.
  change (fst (getModuleId HighFirst PMLockWithInt sim_other))
    with (@Ok Z 0x1234) in Hid'.
  injection Hid as Hid. injection Hid' as Hid'.
  split; [apply Hgood; symmetry; exact Hid|].
  assert (Hne : h' * 256 + l' <> 0xbb15) by (rewrite <- Hid'; discriminate).
  destruct (Hbad Hne) as (Hthrow & _ & Hnow).
  split; [exact Hthrow|exact Hnow].
Defined.

Lemma readFifo_spec_witness :
  fst (readFifo PMLockWithInt sim_empty) = Ok FifoEntry_default /\
  log (snd (readFifo PMLockWithInt sim_empty)) = [OpRead regStatus 0 0x0100] /\
  fst (readFifo PMLockWithInt sim_ok) = Ok (FifoEntry_of 0x00012a02) /\
  log (snd (readFifo PMLockWithInt sim_ok)) =
    [OpRead regStatus 0 0; OpRead regFifo 0 0x0001; OpRead regFifo 1 0x2a02].
Proof.
  destruct (readFifo_spec PMLockWithInt sim_empty) as [Hempty _].
  destruct (readFifo_spec PMLockWithInt sim_ok) as [_ Hfull].
  destruct (Hempty eq_refl) as (He & _).
  destruct (Hfull eq_refl) as (Hf & _).
  rewrite He, Hf. repeat split.
Defined.

Lemma trigBit_out_of_range_rejected_witness :
  adjustTclkReception PMLockWithInt true 5 8 sim_ok =
    (Throw (logic_error "illegal trigger bit value"), sim_ok) /\
  setResetFifoTimestampTrigger PMLockWithInt 0 sim_ok =
    (Throw (logic_error "illegal trigger bit value"), sim_ok) /\
  setWriteFifoTrigger PMLockWithInt 8 sim_ok =
    (Throw (logic_error "illegal trigger bit value"), sim_ok).
Proof.
  destruct (trigBit_out_of_range_rejected PMLockWithInt true 5 8 sim_ok) as [Hadj Hhigh].
  destruct (trigBit_out_of_range_rejected PMLockWithInt true 5 0 sim_ok) as [_ Hlow].
  split; [apply Hadj; reflexivity|].
  split.
  - apply Hlow. left. reflexivity.
  - apply Hhigh. right. reflexivity.
Defined.

Lemma setFifoThreshold_spec_witness :
  fst (setFifoThreshold PMLockWithInt 0 sim_ok) =
    Throw (logic_error "illegal FIFO threshold value") /\
  log (snd (setFifoThreshold PMLockWithInt 200 sim_ok)) =
    [OpWrite regFifoThreshold 0 200].
Proof.
  destruct (setFifoThreshold_spec PMLockWithInt sim_ok) as [Hzero Hlevel].
  rewrite Hzero, (Hlevel 200) by lia. split; reflexivity.
Defined.

Lemma special_trigger_written_plus_one_witness :
  log (snd (setResetFifoTimestampTrigger PMLockWithInt 2 sim_ok)) =
    [OpWrite regFifoClear 0 3] /\
  log (snd (setWriteFifoTrigger PMLockWithInt 2 sim_ok)) = [OpWrite regFifoWrite 0 3].
Proof.
  destruct (special_trigger_written_plus_one PMLockWithInt 2 sim_ok) as [Hclear Hwrite].
  - lia.
  - rewrite Hclear, Hwrite. split; reflexivity.
Defined.

Lemma status_written_only_by_getStatus_witness :
  cells (hw (snd (readFifo PMLockWithInt sim_ok))) regStatus = cells (hw sim_ok) regStatus /\
  filter (is_write_to regStatus) (log (snd (HW HighFirst 0 0 sim_ok))) = [].
Proof.
  destruct (status_written_only_by_getStatus PMLockWithInt sim_ok)
    as (_ & _ & _ & Hlatched & _ & _ & _ & _ & _ & _ & Hhw).
  split.
  - apply (Hlatched (fun d => cells d regStatus)).
    apply (sim_reads_keep_cells regStatus).
  - apply (Hhw HighFirst 0 0 sim_ok).
Defined.

Lemma adjustTclkReception_enable_disable_witness :
  (forall e,
     trigger (hw (snd (adjustTclkReception PMLockWithInt true 5 3
                         (snd (adjustTclkReception PMLockWithInt true 5 3
                                 sim_ok))))) e =
     trigger (hw (snd (adjustTclkReception PMLockWithInt true 5 3 sim_ok))) e)
  /\
  Z.testbit
    (trigger (hw (snd (adjustTclkReception PMLockWithInt true 5 3 sim_ok))) 5)
    3 = true /\
  Z.testbit
    (trigger (hw (snd (adjustTclkReception PMLockWithInt false 5 3
                         (snd (adjustTclkReception PMLockWithInt true 5 3
                                 sim_ok))))) 5)
    3 = false.
Proof.
  destruct (adjustTclkReception_enable_disable trigger PMLockWithInt 5 3 sim_ok
              sim_trigger_is_ram) as (Hidem & Hset & Hclr & _).
  - lia.
  - split; [exact Hidem|]. split; [exact Hset|exact Hclr].
Defined.

(** The claim of C5 as it is worded, that disabling after enabling gives
    bit [B] of the entry the value it had before the enable call, fails
    when the bit was set to begin with: entry 5 holds [0x0001], and after
    enable then disable of [(5, 0)] it holds [0x0000]. *)
Lemma adjustTclkReception_disable_does_not_restore :
  Z.testbit (trigger (hw sim_routed) 5) 0 = true /\
  Z.testbit
    (trigger (hw (snd (adjustTclkReception PMLockWithInt false 5 0
                         (snd (adjustTclkReception PMLockWithInt true 5 0
                                 sim_routed))))) 5)
    0 = false /\
  ~ (forall (w : World SimDev) (E B : Z), 0 <= B <= 7 ->
       Z.testbit
         (trigger
            (hw (snd (adjustTclkReception PMLockWithInt false E B
                        (snd (adjustTclkReception PMLockWithInt true E B w)))))
            E) B =
       Z.testbit (trigger (hw w) E) B).
Proof.
  split; [reflexivity|]. split; [vm_compute; reflexivity|].
  intros Hrestore.
  specialize (Hrestore sim_routed 5 0 ltac:(lia)).
  vm_compute in Hrestore. discriminate Hrestore.
Qed.

(** ** Further properties of FifoEntry and of the register layout *)

(** The two accessors split a 32-bit word without loss: the event is a
    byte, the stamp a 24-bit number, the word is [stamp * 2^8 + event], two
    words with the same event and stamp are equal, and the entry is invalid
    exactly when the event is [0xFF] and the stamp is [0xFFFFFF]. *)
Theorem FifoEntry_fields_roundtrip (w : Z) :
  0 <= w < 2 ^ 32 ->
  0 <= event (FifoEntry_of w) < 2 ^ 8 /\
  0 <= stamp (FifoEntry_of w) < 2 ^ 24 /\
  value (FifoEntry_of w) =
    stamp (FifoEntry_of w) * 2 ^ 8 + event (FifoEntry_of w) /\
  (isValid (FifoEntry_of w) = false <->
   event (FifoEntry_of w) = 0xFF /\ stamp (FifoEntry_of w) = 0xFFFFFF) /\
  (forall w', 0 <= w' < 2 ^ 32 ->
     event (FifoEntry_of w') = event (FifoEntry_of w) ->
     stamp (FifoEntry_of w') = stamp (FifoEntry_of w) -> w' = w).
Proof.
  intros Hw. unfold event, stamp, isValid, FifoEntry_of, NO_VALUE, u8, wrap.
  cbn [value]. rewrite Z.shiftr_div_pow2 by lia.
  change (2 ^ 8) with 256 in *. change (2 ^ 32) with 4294967296 in *.
  change (2 ^ 24) with 16777216.
  pose proof (Z.div_mod w 256 ltac:(lia)) as Hdm.
  pose proof (Z.mod_pos_bound w 256 ltac:(lia)) as Hm.
  assert (Hs : 0 <= w / 256 < 16777216).
  { split; [apply Z.div_pos; lia|apply Z.div_lt_upper_bound; lia]. }
  split; [lia|]. split; [lia|]. split; [lia|]. split.
  - rewrite negb_false_iff, Z.eqb_eq. lia.
  - intros w' Hw' He Hst. rewrite Z.shiftr_div_pow2 in Hst by lia.
    change (2 ^ 8) with 256 in Hst.
    pose proof (Z.div_mod w' 256 ltac:(lia)). lia.
Qed.

Lemma FifoEntry_fields_roundtrip_witness :
  value (FifoEntry_of 0x00012a02) =
    stamp (FifoEntry_of 0x00012a02) * 2 ^ 8 + event (FifoEntry_of 0x00012a02).
Proof.
  destruct (FifoEntry_fields_roundtrip 0x00012a02) as (_ & _ & Hv & _).
  - lia.
  - exact Hv.
Defined.

(** Every register lies inside the window of its address space, a 16-bit
    register starts at an even offset, and two different registers of the
    same address space share no byte. *)
Theorem register_layout_disjoint :
  (forall r,
      0 <= reg_first r /\
      reg_first r < reg_end r <= window_size (space (desc r)) /\
      (bits (desc r) = 16 -> reg_first r mod 2 = 0)) /\
  (forall r1 r2,
      r1 <> r2 ->
      same_space (space (desc r1)) (space (desc r2)) = true ->
      reg_end r1 <= reg_first r2 \/ reg_end r2 <= reg_first r1).
Proof.
  split.
  - intros r. destruct r; cbv; repeat split; intros; congruence.
  - intros r1 r2 Hne Hsp.
    destruct r1, r2; try congruence; try discriminate Hsp;
      unfold reg_end, reg_first, reg_words; cbn; lia.
Qed.

Lemma register_layout_disjoint_witness :
  reg_end regFifoWrite <= reg_first regFifoClear \/
  reg_end regFifoClear <= reg_first regFifoWrite.
Proof.
  destruct register_layout_disjoint as [_ Hdisj].
  apply Hdisj; [discriminate|reflexivity].
Defined.

(** ** Further runs on the simulated module *)

Lemma sim_prom_is_rom : prom_is_rom (Dev := SimDev).
Proof. intros d. split; reflexivity. Defined.

Lemma sim_trigger_kept : trigger_kept_by_other_writes trigger.
Proof.
  intros r idx v d e Hne. destruct r; try reflexivity. contradiction Hne.
  reflexivity.
Defined.

Lemma getTclkReception_spec_witness :
  fst (getTclkReception PMLockWithInt 5 8 sim_routed) =
    Throw (logic_error "illegal trigger bit value") /\
  fst (getTclkReception PMLockWithInt 5 0 sim_routed) = Ok true /\
  log (snd (getTclkReception PMLockWithInt 5 0 sim_routed)) =
    [OpRead regTrigger 5 1].
Proof.
  destruct (getTclkReception_spec PMLockWithInt 5 8 sim_routed) as [Hhigh _].
  destruct (getTclkReception_spec PMLockWithInt 5 0 sim_routed) as [_ Hin].
  rewrite Hhigh by reflexivity. rewrite Hin by lia. repeat split.
Defined.

Lemma adjustTclkReception_sets_one_bit_witness :
  Z.testbit
    (trigger (hw (snd (adjustTclkReception PMLockWithInt true 5 3 sim_routed)))
       5) 3 = true /\
  trigger (hw (snd (adjustTclkReception PMLockWithInt true 5 3 sim_routed))) 6
    = trigger (hw sim_routed) 6.
Proof.
  destruct (adjustTclkReception_sets_one_bit trigger PMLockWithInt true 5 3
              sim_routed sim_trigger_is_ram) as (_ & Hbit & _ & Hother).
  - lia.
  - split; [exact Hbit|]. apply Hother. discriminate.
Defined.

Lemma getTclkReception_after_adjust_witness :
  fst (getTclkReception PMLockWithInt 5 3
         (snd (adjustTclkReception PMLockWithInt true 5 3 sim_routed))) =
    Ok true /\
  fst (getTclkReception PMLockWithInt 5 0
         (snd (adjustTclkReception PMLockWithInt true 5 3 sim_routed))) =
    fst (getTclkReception PMLockWithInt 5 0 sim_routed).
Proof.
  destruct (getTclkReception_after_adjust trigger PMLockWithInt true 5 3 5 0
              sim_routed sim_trigger_is_ram) as [Hsame Hother].
  - lia.
  - lia.
  - split; [exact Hsame|]. apply Hother. right. discriminate.
Defined.

Lemma adjustTclkReception_commute_witness :
  trigger (hw (snd (adjustTclkReception PMLockWithInt false 5 0
                      (snd (adjustTclkReception PMLockWithInt true 5 3
                              sim_routed))))) 5 =
  trigger (hw (snd (adjustTclkReception PMLockWithInt true 5 3
                      (snd (adjustTclkReception PMLockWithInt false 5 0
                              sim_routed))))) 5.
Proof.
  apply (adjustTclkReception_commute trigger PMLockWithInt true false 5 3 5 0
           sim_routed sim_trigger_is_ram).
  - lia.
  - lia.
  - right. discriminate.
Defined.

Lemma readFifo_entry_fields_witness :
  exists e,
    fst (readFifo PMLockWithInt sim_ok) = Ok e /\
    event e = 0x02 /\ stamp e = 0x00012a.
Proof.
  assert (Hbit : Z.testbit (bus_word regStatus 0 (hw sim_ok)) 8 = false)
    by reflexivity.
  destruct (readFifo_entry_fields PMLockWithInt sim_ok Hbit)
    as (e & He & Hev & Hst & _).
  exists e. split; [exact He|]. split; [exact Hev|exact Hst].
Defined.

Lemma getModuleId_order_independent_witness :
  fst (getModuleId HighFirst PMLockWithInt sim_ok) =
  fst (getModuleId LowFirst PMLockWithInt sim_ok).
Proof.
  destruct (getModuleId_order_independent PMLockWithInt sim_ok
              sim_prom_is_rom) as (Hsame & _).
  exact Hsame.
Defined.

Lemma HW_leaves_trigger_map_clear_witness :
  trigger (hw (snd (HW HighFirst 0 0 sim_routed))) 5 = 0 /\
  fst (getTclkReception PMLockWithInt 5 0
         (snd (HW HighFirst 0 0 sim_routed))) = Ok false.
Proof.
  destruct (HW_leaves_trigger_map_clear trigger HighFirst 0 0 sim_routed
              sim_trigger_is_ram sim_trigger_kept) with (e := 5)
    as [Hzero Hget].
  - vm_compute. reflexivity.
  - lia.
  - split; [exact Hzero|]. apply Hget. lia.
Defined.

End IPUCD.
